(** * ContentAlchemist: the content pipeline of [app.py]

    A shallow embedding of the sanitizer ([cleaner_tool]), the three
    pipeline nodes, the Streamlit handlers that drive them and the story
    built by [generate_pdf], followed by the properties of the
    specification that concern them.

    Python [str] values are sequences of Unicode code points; they are
    modelled as lists of code points ([N]).  The two outbound services
    (Tavily search and the Groq chat model) are an interface whose calls
    may raise and may answer differently on every call. *)

From Stdlib Require Import String Ascii List NArith Bool Arith Lia.
Import ListNotations.

Set Implicit Arguments.

(** ** Python text *)

Definition char := N.
Definition str := list char.

(** A literal of the source, written as an ASCII Rocq string. *)
Fixpoint lit (s : string) : str :=
  match s with
  | EmptyString => []
  | String a s' => N_of_ascii a :: lit s'
  end.

Definition LF : char := 10%N.
Definition DQUOTE : char := 34%N.

Definition in_range (lo hi c : char) : bool := (lo <=? c)%N && (c <=? hi)%N.
Arguments in_range (lo hi c)%_N.

(** [Py_UNICODE_ISSPACE]: the code points [str.strip()] removes. *)
Definition isspace (c : char) : bool :=
  in_range 0x09 0x0D c || in_range 0x1C 0x20 c
  || (c =? 0x85)%N || (c =? 0xA0)%N || (c =? 0x1680)%N
  || in_range 0x2000 0x200A c
  || (c =? 0x2028)%N || (c =? 0x2029)%N || (c =? 0x202F)%N
  || (c =? 0x205F)%N || (c =? 0x3000)%N.

Fixpoint lstrip (s : str) : str :=
  match s with
  | [] => []
  | c :: s' => if isspace c then lstrip s' else s
  end.

Definition rstrip (s : str) : str := rev (lstrip (rev s)).

(** [s.strip()] *)
Definition strip (s : str) : str := rstrip (lstrip s).

(** [sep.join(parts)] *)
Fixpoint join (sep : str) (parts : list str) : str :=
  match parts with
  | [] => []
  | [x] => x
  | x :: rest => x ++ sep ++ join sep rest
  end.

(** [s.split(sep)] for a one-character separator: never an empty list. *)
Fixpoint split_on (sep : char) (s : str) : list str :=
  match s with
  | [] => [[]]
  | c :: s' =>
      if (c =? sep)%N then [] :: split_on sep s'
      else match split_on sep s' with
           | seg :: segs => (c :: seg) :: segs
           | [] => [[c]]
           end
  end.

(** ** The regular expressions of [cleaner_tool]

    Each pattern is [(?i)] followed by a literal phrase and [.*], used with
    [re.DOTALL].  [.*] then matches any remainder, so the pattern matches at
    a position exactly when the phrase matches there, ignoring case; the
    phrase is what distinguishes the patterns.

    For a cased literal the compiled pattern compares the lowered text
    character with the lowered literal and its extra equivalents
    ([_ignorecase_fixes]); an uncased literal is compared as it is.  The
    phrases are ASCII: the functions below are CPython's, restricted to what
    a comparison with an ASCII literal can observe (the only code points
    outside ASCII whose lower case is an ASCII letter are U+0130 and
    U+212A). *)

Definition sre_lower_unicode (c : char) : char :=
  if in_range 0x41 0x5A c then (c + 32)%N
  else if (c =? 0x130)%N then 0x69%N
  else if (c =? 0x212A)%N then 0x6B%N
  else c.

Definition unicode_iscased (c : char) : bool :=
  in_range 0x41 0x5A c || in_range 0x61 0x7A c.

Definition ignorecase_fixes (lo : char) : list char :=
  if (lo =? 0x69)%N then [0x131%N]
  else if (lo =? 0x73)%N then [0x17F%N]
  else [].

(** Does the text character [c] match the pattern literal [av]? *)
Definition imatch (av c : char) : bool :=
  if unicode_iscased av then
    let lo := sre_lower_unicode av in
    let l := sre_lower_unicode c in
    (l =? lo)%N || existsb (N.eqb l) (ignorecase_fixes lo)
  else (c =? av)%N.

(** The phrase matches at the start of [s]. *)
Fixpoint imatch_prefix (phrase s : str) : bool :=
  match phrase, s with
  | [], _ => true
  | _ :: _, [] => false
  | av :: phrase', c :: s' => imatch av c && imatch_prefix phrase' s'
  end.

(** Start of the leftmost match of [(?i)phrase.*] in [s], as [re.search]
    finds it. *)
Fixpoint re_search (phrase s : str) : option nat :=
  if imatch_prefix phrase s then Some 0
  else match s with
       | [] => None
       | _ :: s' => option_map S (re_search phrase s')
       end.

(** [re.split(p, s, flags=re.DOTALL)[0]]: the text before the leftmost
    match, the whole text when there is none. *)
Definition re_split_head (phrase s : str) : str :=
  match re_search phrase s with
  | Some i => firstn i s
  | None => s
  end.

Definition patterns : list str :=
  [ lit "I made the following"; lit "Refined for clarity";
    lit "Note:"; lit "Simplified sentence" ].

(** [cleaner_tool]: the loop reassigns [clean] for every pattern in turn. *)
Definition cleaner_tool (content : str) : str :=
  strip (fold_left (fun clean p => re_split_head p clean) patterns content).

(** [p] matches somewhere in [s]. *)
Definition matches (p s : str) : Prop := re_search p s <> None.

(** [p] matches at offset [i] of [s]. *)
Definition matches_at (p s : str) (i : nat) : Prop :=
  imatch_prefix p (skipn i s) = true.

(** [a] is a prefix of [b] and shorter than it. *)
Definition strict_prefix (a b : str) : Prop := exists t, t <> [] /\ b = a ++ t.

(** ** Calls that may raise

    A computation over a state [S] returns or raises.  As in Python, what a
    computation did to the state before it raised stays done. *)

Inductive exn :=
| CollaboratorError (msg : str)
| TypeError
| ValueError.

Inductive outcome (A : Type) :=
| Returned (a : A)
| Raised (e : exn).
Arguments Returned {A} a.
Arguments Raised {A} e.

Definition comp (S A : Type) : Type := S -> outcome A * S.

Definition ret {S A : Type} (a : A) : comp S A := fun s => (Returned a, s).

Definition raise {S A : Type} (e : exn) : comp S A := fun s => (Raised e, s).

Definition bind {S A B : Type} (c : comp S A) (k : A -> comp S B) : comp S B :=
  fun s =>
    match c s with
    | (Returned a, s') => k a s'
    | (Raised e, s') => (Raised e, s')
    end.

Declare Scope comp_scope.
Delimit Scope comp_scope with comp.
Notation "x <- c ;; k" := (bind c (fun x => k))
  (at level 61, c at next level, right associativity) : comp_scope.
Notation "c ;; k" := (bind c (fun _ => k))
  (at level 61, right associativity) : comp_scope.
Open Scope comp_scope.

(** ** The collaborators *)

(** One entry of [search['results']]; the pipeline reads two of its keys. *)
Record SearchResult := { content : str; url : str }.

(** [tavily_search q] is [tavily.search(query=q, search_depth="advanced")['results']]
    and [llm_invoke p] is [llm.invoke(p).content].  [World] is whatever
    decides their answers. *)
Class Collaborators := {
  World : Type;
  tavily_search : str -> comp World (list SearchResult);
  llm_invoke : str -> comp World str
}.

(** ** Agent state and its fragments *)

Record AgentState := {
  topic : str;
  content_type : str;
  tone : str;
  notes : str;
  urls : list str;
  draft : str;
  review : str;
  feedback : str
}.

(** The dicts returned by the tools and nodes: a subset of the keys. *)
Record Update := {
  upd_notes : option str;
  upd_urls : option (list str);
  upd_draft : option str;
  upd_review : option str
}.

Definition over {A : Type} (new : option A) (old : A) : A :=
  match new with Some x => x | None => old end.

(** [{**state, **upd}] *)
Definition merge (state : AgentState) (upd : Update) : AgentState :=
  {| topic := topic state;
     content_type := content_type state;
     tone := tone state;
     notes := over (upd_notes upd) (notes state);
     urls := over (upd_urls upd) (urls state);
     draft := over (upd_draft upd) (draft state);
     review := over (upd_review upd) (review state);
     feedback := feedback state |}.

Definition later {A : Type} (u v : option A) : option A :=
  match v with Some x => Some x | None => u end.

(** [{**u, **v}] on two fragments *)
Definition merge_upd (u v : Update) : Update :=
  {| upd_notes := later (upd_notes u) (upd_notes v);
     upd_urls := later (upd_urls u) (upd_urls v);
     upd_draft := later (upd_draft u) (upd_draft v);
     upd_review := later (upd_review u) (upd_review v) |}.

(** [state["feedback"] = fb] *)
Definition with_feedback (state : AgentState) (fb : str) : AgentState :=
  {| topic := topic state;
     content_type := content_type state;
     tone := tone state;
     notes := notes state;
     urls := urls state;
     draft := draft state;
     review := review state;
     feedback := fb |}.

(** ** Tools *)

Definition writer_prompt (topic content_type notes tone feedback : str) : str :=
  lit "Draft content. No intro/outro/meta-talk. Just the content: "
  ++ lit "Topic: " ++ topic ++ [LF]
  ++ lit "Type: " ++ content_type ++ [LF]
  ++ lit "Tone: " ++ tone ++ [LF]
  ++ lit "Notes: " ++ notes ++ [LF]
  ++ lit "Feedback: " ++ feedback.

Definition reviewer_prompt (draft : str) : str :=
  lit "Critique this draft. Score 1-10 and list 3 strengths: " ++ draft.

Definition research_tool `{Collaborators} (topic : str) : comp World Update :=
  search <- tavily_search topic ;;
  ret {| upd_notes := Some (join [LF] (map content search));
         upd_urls := Some (map url search);
         upd_draft := None;
         upd_review := None |}.

Definition writer_tool `{Collaborators}
    (topic content_type notes tone feedback : str) : comp World str :=
  llm_invoke (writer_prompt topic content_type notes tone feedback).

Definition reviewer_tool `{Collaborators} (draft : str) : comp World str :=
  llm_invoke (reviewer_prompt draft).

(** ** Nodes *)

Definition research_node `{Collaborators} (state : AgentState) : comp World Update :=
  res <- research_tool (topic state) ;;
  ret {| upd_notes := upd_notes res;
         upd_urls := upd_urls res;
         upd_draft := None;
         upd_review := None |}.

Definition writer_node `{Collaborators} (state : AgentState) : comp World Update :=
  draft <- writer_tool (topic state) (content_type state) (notes state)
             (tone state) (feedback state) ;;
  let clean_draft := cleaner_tool draft in
  ret {| upd_notes := None; upd_urls := None;
         upd_draft := Some clean_draft; upd_review := None |}.

Definition reviewer_node `{Collaborators} (state : AgentState) : comp World Update :=
  audit <- reviewer_tool (draft state) ;;
  ret {| upd_notes := None; upd_urls := None;
         upd_draft := None; upd_review := Some audit |}.

(** ** The Streamlit session and its handlers *)

Inductive UiStep := Idle | Gate | Finished.

(** [st.session_state] *)
Record Session := { agent_state : option AgentState; ui_step : UiStep }.

Definition initial_session : Session :=
  {| agent_state := None; ui_step := Idle |}.

Inductive Format := BlogPost | Newsletter | ProductWriteup.
Inductive Tone := FormalCorporate | CasualEngaging | TechnicalAcademic.

Definition format_label (f : Format) : str :=
  match f with
  | BlogPost => lit "Blog Post"
  | Newsletter => lit "Newsletter"
  | ProductWriteup => lit "Product Write-up"
  end.

Definition tone_label (t : Tone) : str :=
  match t with
  | FormalCorporate => lit "Formal Corporate"
  | CasualEngaging => lit "Casual/Engaging"
  | TechnicalAcademic => lit "Technical/Academic"
  end.

(** A handler runs on the session and the world together. *)
Definition Machine `{Collaborators} : Type := (Session * World)%type.

Definition call `{Collaborators} {A : Type} (c : comp World A) : comp Machine A :=
  fun m =>
    match c (snd m) with
    | (r, w') => (r, (fst m, w'))
    end.

Definition put_agent_state `{Collaborators} (st : AgentState) : comp Machine unit :=
  fun m => (Returned tt, ({| agent_state := Some st; ui_step := ui_step (fst m) |}, snd m)).

Definition put_ui_step `{Collaborators} (u : UiStep) : comp Machine unit :=
  fun m => (Returned tt, ({| agent_state := agent_state (fst m); ui_step := u |}, snd m)).

(** Reading [st.session_state.agent_state] as a dict: [None] is not one. *)
Definition get_agent_state `{Collaborators} : comp Machine AgentState :=
  fun m =>
    match agent_state (fst m) with
    | Some st => ret st m
    | None => raise TypeError m
    end.

(** The "Begin Transmutation" button. *)
Definition begin `{Collaborators}
    (topic_in : str) (ctype_in : Format) (tone_in : Tone) : comp Machine unit :=
  let initial_state :=
    {| topic := topic_in; content_type := format_label ctype_in;
       tone := tone_label tone_in;
       notes := []; urls := []; draft := []; review := []; feedback := [] |} in
  r_state <- call (research_node initial_state) ;;
  w_state <- call (writer_node (merge initial_state r_state)) ;;
  rev_state <- call (reviewer_node (merge (merge initial_state r_state) w_state)) ;;
  put_agent_state (merge (merge (merge initial_state r_state) w_state) rev_state) ;;
  put_ui_step Gate.

(** [st.session_state.agent_state["feedback"] = fb] *)
Definition set_feedback `{Collaborators} (fb : str) : comp Machine unit :=
  st <- get_agent_state ;;
  put_agent_state (with_feedback st fb).

(** The write and review steps as the rewrite button runs them again. *)
Definition rerun_write_review `{Collaborators} : comp Machine unit :=
  st <- get_agent_state ;;
  upd_w <- call (writer_node st) ;;
  st1 <- get_agent_state ;;
  upd_r <- call (reviewer_node (merge st1 upd_w)) ;;
  st2 <- get_agent_state ;;
  put_agent_state (merge st2 (merge_upd upd_w upd_r)).

(** The "Trigger Rewrite Tool" button. *)
Definition rewrite `{Collaborators} (fb : str) : comp Machine unit :=
  set_feedback fb ;;
  rerun_write_review.

(** What the human can do.  The rewrite and finalize buttons exist at the
    gate only, the new-project button once finished; the begin button is in
    the sidebar at all times. *)
Inductive Event :=
| Begin (topic_in : str) (ctype_in : Format) (tone_in : Tone)
| Rewrite (fb : str)
| Finalize
| NewProject.

Definition handle `{Collaborators} (ev : Event) : comp Machine unit :=
  fun m =>
    match ev, ui_step (fst m) with
    | Begin t c n, _ => begin t c n m
    | Rewrite fb, Gate => rewrite fb m
    | Finalize, Gate => put_ui_step Finished m
    | NewProject, Finished => put_ui_step Idle m
    | _, _ => (Returned tt, m)
    end.

(** Sessions a human can bring about, whatever the collaborators answer. *)
Inductive reachable `{Collaborators} : Session -> Prop :=
| reach_init : reachable initial_session
| reach_step : forall ev ss w,
    reachable ss -> reachable (fst (snd (handle ev (ss, w)))).

(** Sessions obtained from [ss] by any number of rewrites, failed or not. *)
Inductive rewrite_cycles `{Collaborators} (ss : Session) : Session -> Prop :=
| cycles_none : rewrite_cycles ss ss
| cycles_more : forall fb w ss',
    rewrite_cycles ss ss' ->
    rewrite_cycles ss (fst (snd (rewrite fb (ss', w)))).

(** The stored review is what a reviewer call on the stored draft returned. *)
Definition describes `{Collaborators} (st : AgentState) : Prop :=
  exists w w', reviewer_tool (draft st) w = (Returned (review st), w').

(** What a session holds of the research: [notes] and [urls], if any. *)
Definition notes_urls (ss : Session) : option (str * list str) :=
  option_map (fun st => (notes st, urls st)) (agent_state ss).

(** ** PDF export

    [generate_pdf] builds a list of flowables, the story, hands it to
    [doc.build] and returns the bytes written.  Two things are reportlab's
    and not the program's: whether [Paragraph(text, style)] accepts the
    markup of [text] (it raises [ValueError] when it does not), and what
    [doc.build] makes of a story.  Both are parameters. *)

Inductive Style := TitleStyle | BodyText | Heading3.

(** A flowable that has been built; [Paragraph text style] is a paragraph
    whose markup was accepted. *)
Inductive Flowable :=
| Paragraph (text : str) (style : Style)
| Spacer (width height : N)
| HRFlowable (width : str) (thickness : N).

Definition body_block (para : str) : list Flowable :=
  [Paragraph para BodyText; Spacer 1 6].

Definition rule_and_heading : list Flowable :=
  [Spacer 1 20; HRFlowable (lit "100%") 1; Spacer 1 12;
   Paragraph (lit "<b>VERIFIED SOURCES:</b>") Heading3].

(** [f'<font color="blue">{url}</font>'] *)
Definition source_markup (url : str) : str :=
  lit "<font color=" ++ [DQUOTE] ++ lit "blue" ++ [DQUOTE] ++ lit ">"
  ++ url ++ lit "</font>".

Definition source_line (url : str) : Flowable :=
  Paragraph (source_markup url) BodyText.

(** [if para.strip():] *)
Definition nonblank (para : str) : bool :=
  match strip para with [] => false | _ :: _ => true end.

(** Sequencing of steps that return or raise, without a state. *)
Definition and_then {A B : Type} (o : outcome A) (k : A -> outcome B) : outcome B :=
  match o with
  | Returned a => k a
  | Raised e => Raised e
  end.

(** A [for] loop whose body may raise: the first exception ends it. *)
Fixpoint for_each {A S : Type} (body : S -> A -> outcome S) (l : list A) (s : S)
    : outcome S :=
  match l with
  | [] => Returned s
  | x :: l' => and_then (body s x) (for_each body l')
  end.

Section PdfExport.

(** [str.upper], a builtin whose Unicode tables are not part of the program. *)
Variable str_upper : str -> str.

(** Does reportlab's paragraph parser accept this markup? *)
Variable markup_ok : str -> bool.

(** The bytes of a PDF, and [doc.build(story)] followed by
    [buffer.getvalue()]. *)
Variable Pdf : Type.

Variable doc_build : list Flowable -> outcome Pdf.

(** [Paragraph(text, style)] *)
Definition new_paragraph (text : str) (style : Style) : outcome Flowable :=
  if markup_ok text then Returned (Paragraph text style) else Raised ValueError.

Definition generate_pdf (text title : str) (urls : list str) : outcome Pdf :=
  and_then (new_paragraph (lit "<b>" ++ str_upper title ++ lit "</b>") TitleStyle)
    (fun heading =>
  let story := [heading; Spacer 1 12] in
  and_then
    (for_each
       (fun story para =>
          if nonblank para then
            and_then (new_paragraph para BodyText)
              (fun p => Returned (story ++ [p; Spacer 1 6]))
          else Returned story)
       (split_on LF text) story)
    (fun story =>
  and_then
    match urls with
    | [] => Returned story
    | _ :: _ =>
        and_then (new_paragraph (lit "<b>VERIFIED SOURCES:</b>") Heading3)
          (fun sources_heading =>
        for_each
          (fun story url =>
             and_then (new_paragraph (source_markup url) BodyText)
               (fun p => Returned (story ++ [p])))
          urls
          (story ++ [Spacer 1 20; HRFlowable (lit "100%") 1; Spacer 1 12;
                     sources_heading]))
    end
    (fun story =>
  doc_build story))).

(** The texts given to [Paragraph], in the order in which [generate_pdf]
    builds the paragraphs. *)
Definition paragraph_texts (text title : str) (urls : list str) : list str :=
  (lit "<b>" ++ str_upper title ++ lit "</b>")
  :: filter nonblank (split_on LF text)
  ++ match urls with
     | [] => []
     | _ :: _ => lit "<b>VERIFIED SOURCES:</b>" :: map source_markup urls
     end.

End PdfExport.

(** Reading a story back. *)
Definition paragraphs_in (style : Style) (story : list Flowable) : list str :=
  flat_map
    (fun f =>
       match f with
       | Paragraph text s =>
           match style, s with
           | TitleStyle, TitleStyle | BodyText, BodyText | Heading3, Heading3 => [text]
           | _, _ => []
           end
       | _ => []
       end) story.

(** ** The download section *)

Section Download.

Context `{Collaborators}.

Variable str_upper : str -> str.

Variable markup_ok : str -> bool.

Variable Pdf : Type.

Variable doc_build : list Flowable -> outcome Pdf.

(** A step that returns or raises and leaves the state alone. *)
Definition pure_step {S A : Type} (o : outcome A) : comp S A := fun s => (o, s).

(** The block under [if st.session_state.ui_step == "finished":]: the PDF
    is built from the stored draft and urls, under the title typed in the
    sidebar.  [None] stands for the block not being run. *)
Definition download_section (topic_in : str) : comp Machine (option Pdf) :=
  fun m =>
    match ui_step (fst m) with
    | Finished =>
        (st <- get_agent_state ;;
         pdf <- pure_step
                  (generate_pdf str_upper markup_ok doc_build
                     (draft st) topic_in (urls st)) ;;
         ret (Some pdf)) m
    | _ => ret None m
    end.

End Download.

(** ** Scripted collaborators, for running the pipeline on examples

    The world counts the chat calls made; the [n]-th call gets the [n]-th
    scripted answer, any further call fails. *)

Definition rate_limited : exn := CollaboratorError (lit "rate limit").

Definition Scripted (results : outcome (list SearchResult))
    (answers : list (outcome str)) : Collaborators :=
  {| World := nat;
     tavily_search := fun _ w => (results, w);
     llm_invoke := fun _ w => (nth w answers (Raised rate_limited), S w) |}.

Definition two_results : list SearchResult :=
  [ {| content := lit "A"; url := lit "u1" |};
    {| content := lit "B"; url := lit "u2" |} ].

(** A run with two search results, a first draft that ends in a remark of
    the model, and answers for one rewrite; the next chat call fails. *)
Definition demo : Collaborators :=
  Scripted (Returned two_results)
    [ Returned (lit "Great content here." ++ [LF] ++ lit "Note: I simplified the tone.");
      Returned (lit "Score: 8/10. Clear, short, sourced.");
      Returned (lit "Formal content here. Refined for clarity and tone.");
      Returned (lit "Score: 9/10. Formal, clear, sourced.") ].

Definition demo_topic : str := lit "AI in agriculture".

(** The session at the gate after the first run, the world having answered
    two chat calls. *)
Definition demo_gate : Session :=
  fst (snd (@begin demo demo_topic BlogPost FormalCorporate (initial_session, 0))).

Definition demo_state : AgentState :=
  {| topic := demo_topic; content_type := lit "Blog Post";
     tone := lit "Formal Corporate";
     notes := lit "A" ++ [LF] ++ lit "B"; urls := [lit "u1"; lit "u2"];
     draft := lit "Great content here.";
     review := lit "Score: 8/10. Clear, short, sourced.";
     feedback := [] |}.

(** The same session once the human has finalized it. *)
Definition demo_finished : Session :=
  fst (snd (@handle demo Finalize (demo_gate, 2))).

(** A search service that is down. *)
Definition search_down : Collaborators :=
  Scripted (Raised rate_limited) [].

(** Characters that are not whitespace. *)
Definition visible (s : str) : str := filter (fun c => negb (isspace c)) s.

(** A run whose draft opens a tag and never closes it. *)
Definition demo_bold : Collaborators :=
  Scripted (Returned two_results)
    [ Returned (lit "Use <b>bold claims."); Returned (lit "Score: 7/10.") ].

Definition demo_bold_finished : Session :=
  fst (snd (@handle demo_bold Finalize
              (fst (snd (@begin demo_bold demo_topic BlogPost FormalCorporate
                           (initial_session, 0))), 2))).

(** A stand-in for reportlab's paragraph parser, for running the export on
    examples: it accepts the texts whose tags nest, every opening tag
    having its closing tag, and rejects the others. *)
Fixpoint tags_nest (depth : nat) (s : str) : bool :=
  match s with
  | [] => Nat.eqb depth 0
  | c :: s' =>
      if (c =? 60)%N then
        match s' with
        | [] => false
        | d :: _ =>
            if (d =? 47)%N then
              match depth with
              | O => false
              | S k => tags_nest k s'
              end
            else tags_nest (S depth) s'
        end
      else tags_nest depth s'
  end.

(** A stand-in for [doc.build]: it returns the story it is given. *)
Definition show_story (story : list Flowable) : outcome (list Flowable) :=
  Returned story.

(** ASCII upper-casing, for running [generate_pdf] on examples. *)
Definition ascii_upper (s : str) : str :=
  map (fun c => if in_range 0x61 0x7A c then (c - 32)%N else c) s.

(** ** Which phrases can overlap

    Used to show that cutting at one phrase never cuts through another:
    the code points a literal matches, whether two literals can match the
    same character, and whether phrase [b] can start inside phrase [a]. *)

Definition lower_preimage (l : char) : list char :=
  l :: (if in_range 0x61 0x7A l then [(l - 32)%N] else [])
    ++ (if (l =? 0x69)%N then [0x130%N] else [])
    ++ (if (l =? 0x6B)%N then [0x212A%N] else []).

Definition matching_chars (av : char) : list char :=
  if unicode_iscased av then
    let lo := sre_lower_unicode av in
    flat_map lower_preimage (lo :: ignorecase_fixes lo)
  else [av].

Definition clash (x y : char) : bool := existsb (imatch x) (matching_chars y).

Fixpoint may_align (a b : str) : bool :=
  match a, b with
  | x :: a', y :: b' => clash x y && may_align a' b'
  | _, _ => true
  end.

Definition may_straddle (a b : str) : bool :=
  existsb (fun k => may_align (skipn k a) b) (seq 1 (length a - 1)).

(** * Properties *)

Unset Implicit Arguments.

Example cleaner_note :
  cleaner_tool (lit "Great content here." ++ [LF] ++ lit "Note: I simplified the tone.")
  = lit "Great content here.".
Proof. vm_compute. reflexivity. Qed.

Example cleaner_order :
  cleaner_tool (lit "Good. NOTE: x. I made the following changes") = lit "Good.".
Proof. vm_compute. reflexivity. Qed.

(** ** Stripping *)

Lemma lstrip_split (s : str) :
  exists ws, s = ws ++ lstrip s /\ forallb isspace ws = true.
Proof.
  induction s as [|c s IH]; simpl.
  - exists []. split; reflexivity.
  - destruct (isspace c) eqn:E.
    + destruct IH as [ws [Hs Hws]]. exists (c :: ws). simpl.
      rewrite E, Hws. split; [f_equal; exact Hs | reflexivity].
    + exists []. split; reflexivity.
Qed.

Lemma lstrip_head (s : str) :
  match lstrip s with
  | [] => True
  | c :: _ => isspace c = false
  end.
Proof.
  induction s as [|c s IH]; simpl; [exact I|].
  destruct (isspace c) eqn:E; [exact IH | exact E].
Qed.

Lemma lstrip_fixed (c : char) (s : str) :
  isspace c = false -> lstrip (c :: s) = c :: s.
Proof. intros E. simpl. rewrite E. reflexivity. Qed.

Lemma lstrip_idem (s : str) : lstrip (lstrip s) = lstrip s.
Proof.
  pose proof (lstrip_head s) as H. destruct (lstrip s) as [|c t]; [reflexivity|].
  apply lstrip_fixed, H.
Qed.

Lemma lstrip_spaces (ws s : str) :
  forallb isspace ws = true -> lstrip (ws ++ s) = lstrip s.
Proof.
  induction ws as [|c ws IH]; simpl; [reflexivity|].
  intros H. apply andb_true_iff in H. destruct H as [Hc Hws].
  rewrite Hc. apply IH, Hws.
Qed.

Lemma lstrip_app_nonempty (s t : str) :
  lstrip s <> [] -> lstrip (s ++ t) = lstrip s ++ t.
Proof.
  induction s as [|c s IH]; simpl; [congruence|].
  destruct (isspace c); [exact IH | reflexivity].
Qed.

Lemma rstrip_split (s : str) :
  exists ws, s = rstrip s ++ ws /\ forallb isspace ws = true.
Proof.
  unfold rstrip. destruct (lstrip_split (rev s)) as [ws [Hs Hws]].
  exists (rev ws). split.
  - rewrite <- rev_app_distr, <- Hs, rev_involutive. reflexivity.
  - rewrite forallb_forall in *. intros x Hx. apply Hws, in_rev, Hx.
Qed.

Lemma rstrip_idem (s : str) : rstrip (rstrip s) = rstrip s.
Proof. unfold rstrip. rewrite rev_involutive, lstrip_idem. reflexivity. Qed.

Lemma rstrip_app_nonempty (s t : str) :
  rstrip t <> [] -> rstrip (s ++ t) = s ++ rstrip t.
Proof.
  unfold rstrip. intros H. rewrite rev_app_distr, lstrip_app_nonempty.
  - rewrite rev_app_distr, rev_involutive. reflexivity.
  - intros E. apply H. rewrite E. reflexivity.
Qed.

Lemma lstrip_nonspace_nonempty (a : str) (c : char) (b : str) :
  isspace c = false -> lstrip (a ++ c :: b) <> [].
Proof.
  intros E. induction a as [|d a IH]; simpl.
  - rewrite E. discriminate.
  - destruct (isspace d); [exact IH | discriminate].
Qed.

Lemma rstrip_nonspace_nonempty (a : str) (c : char) (b : str) :
  isspace c = false -> rstrip (a ++ c :: b) <> [].
Proof.
  intros E H. unfold rstrip in H.
  apply (f_equal (@rev char)) in H. rewrite rev_involutive in H. simpl in H.
  rewrite rev_app_distr in H. simpl in H. rewrite <- app_assoc in H. simpl in H.
  exact (lstrip_nonspace_nonempty (rev b) c (rev a) E H).
Qed.

Lemma rstrip_keeps_head (c : char) (s : str) :
  isspace c = false -> exists t, rstrip (c :: s) = c :: t.
Proof.
  intros E. destruct (rstrip_split (c :: s)) as [ws [Hs _]].
  pose proof (rstrip_nonspace_nonempty [] c s E) as Hne. simpl in Hne.
  destruct (rstrip (c :: s)) as [|d t]; [congruence|].
  simpl in Hs. injection Hs as Hd _. subst d. exists t. reflexivity.
Qed.

Lemma strip_idem (s : str) : strip (strip s) = strip s.
Proof.
  unfold strip. pose proof (lstrip_head s) as H.
  destruct (lstrip s) as [|c t].
  - reflexivity.
  - destruct (rstrip_keeps_head c t H) as [u Hu]. rewrite Hu.
    rewrite (lstrip_fixed c u H), <- Hu. apply rstrip_idem.
Qed.

Lemma strip_middle (s : str) :
  exists a b, s = a ++ strip s ++ b.
Proof.
  unfold strip. destruct (lstrip_split s) as [a [Ha _]].
  destruct (rstrip_split (lstrip s)) as [b [Hb _]].
  exists a, b. rewrite <- Hb. exact Ha.
Qed.

(** ** Matching a phrase *)

Lemma imatch_prefix_app (p a b : str) :
  imatch_prefix p a = true -> imatch_prefix p (a ++ b) = true.
Proof.
  revert a. induction p as [|av p IH]; intros a H; [reflexivity|].
  destruct a as [|c a]; simpl in *; [discriminate|].
  apply andb_true_iff in H. destruct H as [Hc Hp].
  rewrite Hc. simpl. apply IH, Hp.
Qed.

Lemma imatch_prefix_length (p s : str) :
  imatch_prefix p s = true -> length p <= length s.
Proof.
  revert s. induction p as [|av p IH]; intros s H; simpl; [lia|].
  destruct s as [|c s]; simpl in *; [discriminate|].
  apply andb_true_iff in H. destruct H as [_ Hp]. apply IH in Hp. lia.
Qed.

Lemma imatch_prefix_firstn (p s : str) (n : nat) :
  imatch_prefix p s = true -> length p <= n ->
  imatch_prefix p (firstn n s) = true.
Proof.
  revert s n. induction p as [|av p IH]; intros s n H Hn; [reflexivity|].
  destruct s as [|c s]; simpl in H; [discriminate|].
  destruct n as [|n]; simpl in Hn; [lia|].
  apply andb_true_iff in H. destruct H as [Hc Hp].
  simpl. rewrite Hc. simpl. apply IH; [exact Hp | lia].
Qed.

Lemma imatch_prefix_nil (p : str) : p <> [] -> imatch_prefix p [] = false.
Proof. destruct p; [congruence | reflexivity]. Qed.

Lemma re_search_eq (p s : str) :
  re_search p s =
  if imatch_prefix p s then Some 0
  else match s with
       | [] => None
       | _ :: s' => option_map S (re_search p s')
       end.
Proof. destruct s; reflexivity. Qed.

Lemma re_search_None (p s : str) :
  re_search p s = None -> forall j, imatch_prefix p (skipn j s) = false.
Proof.
  induction s as [|c s IH]; intros H j; rewrite re_search_eq in H.
  - rewrite skipn_nil. destruct (imatch_prefix p []); [discriminate | reflexivity].
  - destruct (imatch_prefix p (c :: s)) eqn:E; [discriminate|].
    destruct j as [|j]; [exact E|]. simpl. apply IH.
    destruct (re_search p s); [discriminate | reflexivity].
Qed.

Lemma re_search_None_intro (p s : str) :
  (forall j, imatch_prefix p (skipn j s) = false) -> re_search p s = None.
Proof.
  induction s as [|c s IH]; intros H; rewrite re_search_eq;
    pose proof (H 0) as H0; simpl in H0; rewrite H0.
  - reflexivity.
  - rewrite IH; [reflexivity|]. intros j. exact (H (S j)).
Qed.

Lemma re_search_Some (p s : str) (i : nat) :
  re_search p s = Some i ->
  matches_at p s i /\ forall j, j < i -> imatch_prefix p (skipn j s) = false.
Proof.
  unfold matches_at. revert i.
  induction s as [|c s IH]; intros i H; rewrite re_search_eq in H.
  - destruct (imatch_prefix p []) eqn:E; [|discriminate].
    injection H as <-. split; [exact E | intros j Hj; lia].
  - destruct (imatch_prefix p (c :: s)) eqn:E.
    + injection H as <-. split; [exact E | intros j Hj; lia].
    + destruct (re_search p s) as [k|]; [|discriminate].
      injection H as <-. destruct (IH k eq_refl) as [Hk Hlt].
      split; [exact Hk|]. intros [|j] Hj; [exact E|]. simpl. apply Hlt. lia.
Qed.

Lemma re_search_first (p s : str) (i : nat) :
  matches_at p s i ->
  (forall j, j < i -> imatch_prefix p (skipn j s) = false) ->
  re_search p s = Some i.
Proof.
  unfold matches_at. revert i.
  induction s as [|c s IH]; intros i Hi Hlt; rewrite re_search_eq.
  - rewrite skipn_nil in Hi. rewrite Hi. destruct i as [|i]; [reflexivity|].
    specialize (Hlt 0 ltac:(lia)). simpl in Hlt. congruence.
  - destruct i as [|i].
    + simpl in Hi. rewrite Hi. reflexivity.
    + pose proof (Hlt 0 ltac:(lia)) as H0. simpl in H0, Hi. rewrite H0.
      rewrite (IH i Hi); [reflexivity|].
      intros j Hj. apply (Hlt (S j)). lia.
Qed.

Lemma free_app_l (p a b : str) :
  re_search p (a ++ b) = None -> re_search p a = None.
Proof.
  intros H. apply re_search_None_intro. intros j.
  destruct (imatch_prefix p (skipn j a)) eqn:E; [|reflexivity].
  pose proof (re_search_None _ _ H j) as Hj.
  rewrite skipn_app in Hj. rewrite imatch_prefix_app in Hj; [discriminate | exact E].
Qed.

Lemma free_app_r (p a b : str) :
  re_search p (a ++ b) = None -> re_search p b = None.
Proof.
  intros H. apply re_search_None_intro. intros j.
  pose proof (re_search_None _ _ H (length a + j)) as Hj.
  rewrite skipn_app in Hj. rewrite skipn_all2 in Hj by lia.
  replace (length a + j - length a) with j in Hj by lia. exact Hj.
Qed.

Lemma re_split_head_split (p s : str) :
  exists t, s = re_split_head p s ++ t /\ (t = [] \/ imatch_prefix p t = true).
Proof.
  unfold re_split_head. destruct (re_search p s) as [i|] eqn:E.
  - exists (skipn i s). split; [symmetry; apply firstn_skipn|].
    right. apply (re_search_Some _ _ _ E).
  - exists []. split; [symmetry; apply app_nil_r | left; reflexivity].
Qed.

Lemma re_split_head_free (p s : str) :
  p <> [] -> re_search p (re_split_head p s) = None.
Proof.
  intros Hp. unfold re_split_head. destruct (re_search p s) as [i|] eqn:E; [|exact E].
  destruct (re_search_Some _ _ _ E) as [_ Hlt].
  apply re_search_None_intro. intros j.
  destruct (Nat.lt_ge_cases j i) as [Hj|Hj].
  - rewrite skipn_firstn_comm.
    destruct (imatch_prefix p (firstn (i - j) (skipn j s))) eqn:M; [|reflexivity].
    pose proof (imatch_prefix_app p _ (skipn (i - j) (skipn j s)) M) as M'.
    rewrite firstn_skipn in M'. rewrite (Hlt j Hj) in M'. discriminate.
  - rewrite skipn_all2; [apply imatch_prefix_nil, Hp|].
    rewrite length_firstn. lia.
Qed.

(** ** The loop of [cleaner_tool] *)

Lemma loop_split (pats : list str) (c : str) :
  exists t,
    c = fold_left (fun clean p => re_split_head p clean) pats c ++ t
    /\ (t = [] \/ exists p, In p pats /\ imatch_prefix p t = true).
Proof.
  revert c. induction pats as [|q rest IH]; intros c; simpl.
  - exists []. split; [symmetry; apply app_nil_r | left; reflexivity].
  - destruct (re_split_head_split q c) as [t1 [Hc Ht1]].
    destruct (IH (re_split_head q c)) as [t2 [Hc2 Ht2]].
    exists (t2 ++ t1). split.
    + rewrite app_assoc, <- Hc2. exact Hc.
    + destruct Ht2 as [->|[p [Hp Hm]]].
      * simpl. destruct Ht1 as [->|Hm]; [left; reflexivity|].
        right. exists q. split; [left; reflexivity | exact Hm].
      * right. exists p. split; [right; exact Hp | apply imatch_prefix_app, Hm].
Qed.

Lemma loop_free (pats : list str) (c : str) :
  (forall p, In p pats -> p <> []) ->
  forall p, In p pats ->
    re_search p (fold_left (fun clean p => re_split_head p clean) pats c) = None.
Proof.
  revert c. induction pats as [|q rest IH]; intros c Hne p Hp; simpl in *; [tauto|].
  destruct Hp as [->|Hp].
  - destruct (loop_split rest (re_split_head p c)) as [t [Ht _]].
    apply free_app_l with (b := t). rewrite <- Ht.
    apply re_split_head_free, Hne. left; reflexivity.
  - apply IH; [|exact Hp]. intros p' Hp'. apply Hne. right; exact Hp'.
Qed.

Lemma loop_id (pats : list str) (c : str) :
  (forall p, In p pats -> re_search p c = None) ->
  fold_left (fun clean p => re_split_head p clean) pats c = c.
Proof.
  induction pats as [|q rest IH]; intros H; simpl; [reflexivity|].
  unfold re_split_head at 2. rewrite (H q) by (left; reflexivity).
  apply IH. intros p Hp. apply H. right; exact Hp.
Qed.

Lemma patterns_nonempty (p : str) : In p patterns -> p <> [].
Proof.
  unfold patterns. simpl. intros [<-|[<-|[<-|[<-|[]]]]]; discriminate.
Qed.

Lemma strip_free (p s : str) :
  re_search p s = None -> re_search p (strip s) = None.
Proof.
  intros H. destruct (strip_middle s) as [a [b Hs]]. rewrite Hs in H.
  apply free_app_r in H. apply free_app_l in H. exact H.
Qed.

Lemma cleaner_tool_free (content p : str) :
  In p patterns -> re_search p (cleaner_tool content) = None.
Proof.
  intros Hp. apply strip_free, loop_free; [apply patterns_nonempty | exact Hp].
Qed.

Lemma cleaner_tool_stripped (content : str) :
  strip (cleaner_tool content) = cleaner_tool content.
Proof. apply strip_idem. Qed.

Lemma firstn_free (p c : str) (i : nat) :
  p <> [] ->
  (forall j, j < i -> imatch_prefix p (skipn j c) = false) ->
  re_search p (firstn i c) = None.
Proof.
  intros Hp Hlt. apply re_search_None_intro. intros j.
  destruct (Nat.lt_ge_cases j i) as [Hj|Hj].
  - rewrite skipn_firstn_comm.
    destruct (imatch_prefix p (firstn (i - j) (skipn j c))) eqn:M; [|reflexivity].
    pose proof (imatch_prefix_app p _ (skipn (i - j) (skipn j c)) M) as M'.
    rewrite firstn_skipn in M'. rewrite (Hlt j Hj) in M'. discriminate.
  - rewrite skipn_all2; [apply imatch_prefix_nil, Hp|].
    rewrite length_firstn. lia.
Qed.

(** ** Phrases do not overlap *)

Lemma lower_preimage_complete (c : char) :
  In c (lower_preimage (sre_lower_unicode c)).
Proof.
  unfold lower_preimage, sre_lower_unicode, in_range.
  destruct (N.leb_spec 0x41 c); destruct (N.leb_spec c 0x5A); simpl.
  - right.
    destruct (N.leb_spec 0x61 (c + 32)); [|lia].
    destruct (N.leb_spec (c + 32) 0x7A); [|lia].
    simpl. left. lia.
  - destruct (N.eqb_spec c 0x130) as [->|]; [vm_compute; tauto|].
    destruct (N.eqb_spec c 0x212A) as [->|]; [vm_compute; tauto|].
    left; reflexivity.
  - destruct (N.eqb_spec c 0x130) as [->|]; [vm_compute; tauto|].
    destruct (N.eqb_spec c 0x212A) as [->|]; [vm_compute; tauto|].
    left; reflexivity.
  - destruct (N.eqb_spec c 0x130) as [->|]; [vm_compute; tauto|].
    destruct (N.eqb_spec c 0x212A) as [->|]; [vm_compute; tauto|].
    left; reflexivity.
Qed.

Lemma matching_chars_complete (av c : char) :
  imatch av c = true -> In c (matching_chars av).
Proof.
  unfold imatch, matching_chars. destruct (unicode_iscased av).
  - intros H. apply in_flat_map. apply orb_true_iff in H. destruct H as [H|H].
    + apply N.eqb_eq in H. exists (sre_lower_unicode av).
      split; [left; reflexivity|]. rewrite <- H. apply lower_preimage_complete.
    + apply existsb_exists in H. destruct H as [x [Hx Hl]]. apply N.eqb_eq in Hl.
      exists x. split; [right; exact Hx|]. rewrite <- Hl. apply lower_preimage_complete.
  - intros H. apply N.eqb_eq in H. left. symmetry. exact H.
Qed.

Lemma clash_intro (x y c : char) :
  imatch x c = true -> imatch y c = true -> clash x y = true.
Proof.
  intros Hx Hy. apply existsb_exists. exists c.
  split; [apply matching_chars_complete, Hy | exact Hx].
Qed.

Lemma may_align_intro (a b s : str) :
  imatch_prefix a s = true -> imatch_prefix b s = true -> may_align a b = true.
Proof.
  revert b s. induction a as [|x a IH]; intros b s Ha Hb; [reflexivity|].
  destruct b as [|y b]; [reflexivity|].
  destruct s as [|c s]; simpl in *; [discriminate|].
  apply andb_true_iff in Ha, Hb. destruct Ha as [Hx Ha], Hb as [Hy Hb].
  rewrite (clash_intro x y c Hx Hy). simpl. exact (IH b s Ha Hb).
Qed.

Lemma imatch_prefix_skipn (a s : str) (k : nat) :
  imatch_prefix a s = true -> imatch_prefix (skipn k a) (skipn k s) = true.
Proof.
  revert a s. induction k as [|k IH]; intros a s H; [exact H|].
  destruct a as [|x a]; [reflexivity|].
  destruct s as [|c s]; simpl in *; [discriminate|].
  apply andb_true_iff in H. apply IH, H.
Qed.

Lemma may_straddle_intro (a b s : str) (k : nat) :
  imatch_prefix a s = true -> imatch_prefix b (skipn k s) = true ->
  0 < k < length a -> may_straddle a b = true.
Proof.
  intros Ha Hb Hk. apply existsb_exists. exists k. split.
  - apply in_seq. lia.
  - apply may_align_intro with (s := skipn k s); [apply imatch_prefix_skipn, Ha | exact Hb].
Qed.

Lemma patterns_no_straddle (a b : str) :
  In a patterns -> In b patterns -> may_straddle a b = false.
Proof.
  unfold patterns. simpl.
  intros [<-|[<-|[<-|[<-|[]]]]] [<-|[<-|[<-|[<-|[]]]]]; vm_compute; reflexivity.
Qed.

Lemma patterns_start_nonspace (p t : str) :
  In p patterns -> imatch_prefix p t = true ->
  exists c t', t = c :: t' /\ isspace c = false.
Proof.
  intros Hp Hm. destruct t as [|c t'].
  - rewrite imatch_prefix_nil in Hm; [discriminate | apply patterns_nonempty, Hp].
  - exists c, t'. split; [reflexivity|].
    assert (In c (flat_map matching_chars (map (hd 0%N) patterns))) as Hc.
    { apply in_flat_map. exists (hd 0%N p). split; [apply in_map, Hp|].
      apply matching_chars_complete.
      destruct p as [|av p]; [exact (False_ind _ (patterns_nonempty _ Hp eq_refl))|].
      simpl in *. apply andb_true_iff in Hm. apply Hm. }
    assert (forallb (fun c => negb (isspace c))
              (flat_map matching_chars (map (hd 0%N) patterns)) = true) as Hall
      by (vm_compute; reflexivity).
    rewrite forallb_forall in Hall. apply negb_true_iff, Hall, Hc.
Qed.

(** ** Where the loop cuts *)

Lemma loop_cut (pats : list str) :
  forall (c : str) (i : nat),
    (forall p, In p pats -> p <> []) ->
    (forall a b, In a pats -> In b pats -> may_straddle a b = false) ->
    (exists p, In p pats /\ matches_at p c i) ->
    (forall p j, In p pats -> j < i -> ~ matches_at p c j) ->
    fold_left (fun clean p => re_split_head p clean) pats c = firstn i c.
Proof.
  unfold matches_at.
  induction pats as [|q rest IH]; intros c i Hne Hns [p [Hp Hm]] Hbefore.
  - destruct Hp.
  - assert (forall p', In p' (q :: rest) -> forall j, j < i ->
              imatch_prefix p' (skipn j c) = false) as Hb.
    { intros p' Hp' j Hj. apply not_true_iff_false. exact (Hbefore p' j Hp' Hj). }
    simpl. destruct (imatch_prefix q (skipn i c)) eqn:Eq.
    + unfold re_split_head at 2.
      rewrite (re_search_first q c i Eq (Hb q (or_introl eq_refl))).
      apply loop_id. intros p' Hp'. apply firstn_free.
      * apply Hne. right; exact Hp'.
      * apply Hb. right; exact Hp'.
    + assert (In p rest) as Hpr by (destruct Hp as [->|Hp]; [congruence | exact Hp]).
      unfold re_split_head at 2. destruct (re_search q c) as [j|] eqn:Es.
      * destruct (re_search_Some _ _ _ Es) as [Hj _]. unfold matches_at in Hj.
        assert (i < j) as Hij.
        { destruct (Nat.lt_trichotomy j i) as [H|[H|H]]; [|congruence|exact H].
          rewrite (Hb q (or_introl eq_refl) j H) in Hj. discriminate. }
        assert (length p <= j - i) as Hlen.
        { destruct (Nat.le_gt_cases (length p) (j - i)) as [H|H]; [exact H|].
          assert (may_straddle p q = true) as Hs.
          { apply may_straddle_intro with (s := skipn i c) (k := j - i);
              [exact Hm| |lia].
            rewrite skipn_skipn. replace (j - i + i) with j by lia. exact Hj. }
          rewrite Hns in Hs; [discriminate | exact Hp | left; reflexivity]. }
        rewrite (IH (firstn j c) i).
        -- rewrite firstn_firstn. f_equal. lia.
        -- intros p' Hp'. apply Hne. right; exact Hp'.
        -- intros a b Ha Hb'. apply Hns; right; assumption.
        -- exists p. split; [exact Hpr|]. rewrite skipn_firstn_comm.
           apply imatch_prefix_firstn; [exact Hm | exact Hlen].
        -- intros p' j' Hp' Hj' H. rewrite skipn_firstn_comm in H.
           pose proof (imatch_prefix_app p' _ (skipn (j - j') (skipn j' c)) H) as H'.
           rewrite firstn_skipn in H'.
           rewrite (Hb p' (or_intror Hp') j' Hj') in H'. discriminate.
      * apply IH.
        -- intros p' Hp'. apply Hne. right; exact Hp'.
        -- intros a b Ha Hb'. apply Hns; right; assumption.
        -- exists p. split; [exact Hpr | exact Hm].
        -- intros p' j' Hp' Hj'. apply Hbefore; [right; exact Hp' | exact Hj'].
Qed.

Lemma strip_cut_strict (pre : str) (c : char) (t : str) :
  isspace c = false -> strict_prefix (strip pre) (strip (pre ++ c :: t)).
Proof.
  intros E. unfold strip, strict_prefix. destruct (lstrip pre) as [|d u] eqn:L.
  - destruct (lstrip_split pre) as [ws [Hpre Hws]]. rewrite L, app_nil_r in Hpre.
    subst ws. rewrite lstrip_spaces by exact Hws. rewrite lstrip_fixed by exact E.
    exists (rstrip (c :: t)). split; [|reflexivity].
    exact (rstrip_nonspace_nonempty [] c t E).
  - rewrite lstrip_app_nonempty by (rewrite L; discriminate). rewrite L.
    destruct (rstrip_split (d :: u)) as [ws [Hd _]].
    exists (rstrip (ws ++ c :: t)). split.
    + apply rstrip_nonspace_nonempty, E.
    + rewrite Hd at 1. rewrite <- app_assoc. apply rstrip_app_nonempty.
      apply rstrip_nonspace_nonempty, E.
Qed.

(** ** The sanitizer *)

Lemma cleaner_tool_on_free (text : str) :
  (forall p, In p patterns -> re_search p text = None) ->
  cleaner_tool text = strip text.
Proof.
  intros H. unfold cleaner_tool. f_equal. apply loop_id, H.
Qed.

(** C4: when none of the four patterns matches the text, [cleaner_tool]
    returns the text with leading and trailing whitespace removed and
    nothing else changed: [cleaner_tool text = strip text]. *)
Theorem cleaner_tool_no_match (text : str) :
  (forall p, In p patterns -> ~ matches p text) ->
  cleaner_tool text = strip text.
Proof.
  intros H. apply cleaner_tool_on_free.
  intros p Hp. specialize (H p Hp). unfold matches in H.
  destruct (re_search p text); [exfalso; apply H; discriminate | reflexivity].
Qed.

Lemma cleaner_tool_no_match_witness :
  (forall p, In p patterns -> ~ matches p (lit "  plain  text "))
  /\ cleaner_tool (lit "  plain  text ") = lit "plain  text".
Proof.
  assert (forall p, In p patterns -> ~ matches p (lit "  plain  text ")) as H.
  { unfold patterns, matches. simpl In.
    intros p [<-|[<-|[<-|[<-|[]]]]] Hm; apply Hm; vm_compute; reflexivity. }
  split; [exact H|].
  rewrite (cleaner_tool_no_match (lit "  plain  text ") H). vm_compute. reflexivity.
Defined.

(** C1: when at least one of the four patterns matches the text, the output
    of [cleaner_tool] is a strict prefix of the text with leading and
    trailing whitespace removed -- it is [strip pre] for a strict prefix
    [pre] of the text, and it is also a strict prefix of [strip text] -- and
    none of the four patterns matches the output. *)
Theorem cleaner_tool_match (text : str) :
  (exists p, In p patterns /\ matches p text) ->
  (exists pre, strict_prefix pre text /\ cleaner_tool text = strip pre)
  /\ strict_prefix (cleaner_tool text) (strip text)
  /\ (forall p, In p patterns -> ~ matches p (cleaner_tool text)).
Proof.
  intros [p [Hp Hm]].
  destruct (loop_split patterns text) as [t [Ht Hcut]].
  set (pre := fold_left (fun clean p => re_split_head p clean) patterns text) in *.
  assert (exists c t', t = c :: t' /\ isspace c = false) as [c [t' [-> Hc]]].
  { destruct Hcut as [->|[q [Hq Hqm]]].
    - exfalso. apply Hm. rewrite Ht, app_nil_r. apply loop_free; [|exact Hp].
      apply patterns_nonempty.
    - exact (patterns_start_nonspace q t Hq Hqm). }
  split; [|split].
  - exists pre. split; [|reflexivity]. exists (c :: t'). split; [discriminate | exact Ht].
  - unfold cleaner_tool. fold pre.
    replace (strip text) with (strip (pre ++ c :: t')) by (rewrite <- Ht; reflexivity).
    apply strip_cut_strict, Hc.
  - intros q Hq Hqm. apply Hqm. apply cleaner_tool_free, Hq.
Qed.

Lemma cleaner_tool_match_witness :
  let text := lit " Body." ++ [LF] ++ lit "note: shortened. Refined for clarity" in
  (exists p, In p patterns /\ matches p text)
  /\ cleaner_tool text = lit "Body."
  /\ strict_prefix (cleaner_tool text) (strip text)
  /\ (forall p, In p patterns -> ~ matches p (cleaner_tool text)).
Proof.
  intros text.
  assert (exists p, In p patterns /\ matches p text) as H.
  { exists (lit "Note:"). split; [right; right; left; reflexivity|].
    unfold matches. vm_compute. discriminate. }
  destruct (cleaner_tool_match text H) as [_ [Hpre Hfree]].
  split; [exact H|]. split; [vm_compute; reflexivity|].
  split; [exact Hpre | exact Hfree].
Defined.

(** C5: [cleaner_tool] is idempotent. *)
Theorem cleaner_tool_idempotent (x : str) :
  cleaner_tool (cleaner_tool x) = cleaner_tool x.
Proof.
  rewrite cleaner_tool_on_free.
  - apply cleaner_tool_stripped.
  - intros p Hp. apply cleaner_tool_free, Hp.
Qed.

Lemma cleaner_tool_cut_at (text : str) (i : nat) :
  (exists p, In p patterns /\ matches_at p text i) ->
  (forall p j, In p patterns -> j < i -> ~ matches_at p text j) ->
  cleaner_tool text = strip (firstn i text).
Proof.
  intros Hm Hbefore. unfold cleaner_tool. f_equal.
  apply loop_cut; [apply patterns_nonempty | apply patterns_no_straddle | exact Hm | exact Hbefore].
Qed.

Lemma earliest_match_exists (text : str) :
  (exists p, In p patterns /\ matches p text) ->
  exists i,
    (exists p, In p patterns /\ matches_at p text i)
    /\ (forall p j, In p patterns -> matches_at p text j -> i <= j).
Proof.
  intros [p [Hp Hm]]. unfold matches in Hm.
  pose (P := fun j => existsb (fun q => imatch_prefix q (skipn j text)) patterns = true).
  assert (forall j, P j <-> exists q, In q patterns /\ matches_at q text j) as HP.
  { intros j. unfold P. rewrite existsb_exists. reflexivity. }
  destruct (Wf_nat.dec_inh_nat_subset_has_unique_least_element P) as [i [[Hi Hleast] _]].
  - intros n. unfold P.
    destruct (existsb (fun q => imatch_prefix q (skipn n text)) patterns);
      [left; reflexivity | right; discriminate].
  - destruct (re_search p text) as [k|] eqn:E; [|congruence].
    exists k. apply HP. exists p. split; [exact Hp | apply (re_search_Some _ _ _ E)].
  - exists i. split; [apply HP, Hi|].
    intros q j Hq Hj. apply Hleast, HP. exists q. split; assumption.
Qed.

(** C3, as the code has it: every pattern is applied in turn to what the
    previous ones left, so in a text that some pattern matches the cut that
    takes effect is at the earliest offset at which any of the four
    patterns matches, whatever that pattern's place in the list; the output
    is the text strictly before that offset, stripped. *)
Theorem cleaner_tool_earliest_match (text : str) :
  (exists p, In p patterns /\ matches p text) ->
  exists i,
    (exists p, In p patterns /\ matches_at p text i)
    /\ (forall p j, In p patterns -> matches_at p text j -> i <= j)
    /\ cleaner_tool text = strip (firstn i text).
Proof.
  intros H. destruct (earliest_match_exists text H) as [i [Hi Hleast]].
  exists i. split; [exact Hi|]. split; [exact Hleast|].
  apply cleaner_tool_cut_at; [exact Hi|].
  intros p j Hp Hj Hm. specialize (Hleast p j Hp Hm). lia.
Qed.

Lemma cleaner_tool_earliest_match_witness :
  let text := lit "Good. NOTE: x. I made the following changes" in
  (exists p, In p patterns /\ matches p text)
  /\ exists i,
       (exists p, In p patterns /\ matches_at p text i)
       /\ (forall p j, In p patterns -> matches_at p text j -> i <= j)
       /\ cleaner_tool text = strip (firstn i text).
Proof.
  intros text.
  assert (exists p, In p patterns /\ matches p text) as Hm.
  { exists (lit "I made the following"). split; [left; reflexivity|].
    unfold matches. vm_compute. discriminate. }
  split; [exact Hm|]. exact (cleaner_tool_earliest_match text Hm).
Defined.

Example cleaner_tool_cut_at_note :
  let text := lit "Good. NOTE: x. I made the following changes" in
  matches_at (lit "Note:") text 6
  /\ cleaner_tool text = strip (firstn 6 text)
  /\ strip (firstn 6 text) = lit "Good.".
Proof. vm_compute. repeat split. Qed.

(** C3, as stated, fails: in this text the first pattern of the list
    matches (at offset 15) and so does the third (at offset 6); the output
    is not the text before the first pattern's match, stripped or not. *)
Lemma first_pattern_does_not_decide :
  let text := lit "Good. NOTE: x. I made the following changes" in
  re_search (nth 0 patterns []) text = Some 15
  /\ re_search (nth 2 patterns []) text = Some 6
  /\ cleaner_tool text = lit "Good."
  /\ firstn 15 text = lit "Good. NOTE: x. "
  /\ cleaner_tool text <> firstn 15 text
  /\ cleaner_tool text <> strip (firstn 15 text).
Proof.
  vm_compute. repeat split; discriminate.
Qed.

(** ** The pipeline *)

Ltac conj_close :=
  repeat match goal with |- _ /\ _ => split end;
  first [assumption | reflexivity].

Section Pipeline.

Context `{C : Collaborators}.

(** The session a successful run of [begin] stores. *)
Lemma begin_cases (t : str) (c : Format) (n : Tone) (ss : Session) (w : World) :
  (exists e w', begin t c n (ss, w) = (Raised e, (ss, w')))
  \/ (exists results w0 raw w1 rv w2,
        tavily_search t w = (Returned results, w0)
        /\ writer_tool t (format_label c) (join [LF] (map content results))
             (tone_label n) [] w0 = (Returned raw, w1)
        /\ reviewer_tool (cleaner_tool raw) w1 = (Returned rv, w2)
        /\ begin t c n (ss, w) =
           (Returned tt,
            ({| agent_state :=
                  Some {| topic := t; content_type := format_label c;
                          tone := tone_label n;
                          notes := join [LF] (map content results);
                          urls := map url results;
                          draft := cleaner_tool raw; review := rv;
                          feedback := [] |};
                ui_step := Gate |}, w2))).
Proof.
  unfold begin, bind, call, research_node, research_tool, writer_node,
    reviewer_node, ret, put_agent_state, put_ui_step, bind. simpl.
  destruct (tavily_search t w) as [[results|e] w0] eqn:Es; simpl.
  2:{ left. exists e, w0. reflexivity. }
  destruct (writer_tool t (format_label c) (join [LF] (map content results))
              (tone_label n) [] w0) as [[raw|e] w1] eqn:Ew; simpl.
  2:{ left. exists e, w1. reflexivity. }
  destruct (reviewer_tool (cleaner_tool raw) w1) as [[rv|e] w2] eqn:Er; simpl.
  2:{ left. exists e, w2. reflexivity. }
  right. exists results, w0, raw, w1, rv, w2.
  conj_close.
Qed.

Lemma rerun_cases (ss : Session) (w : World) :
  (exists e w', rerun_write_review (ss, w) = (Raised e, (ss, w')))
  \/ (exists st raw w1 rv w2,
        agent_state ss = Some st
        /\ writer_tool (topic st) (content_type st) (notes st) (tone st)
             (feedback st) w = (Returned raw, w1)
        /\ reviewer_tool (cleaner_tool raw) w1 = (Returned rv, w2)
        /\ rerun_write_review (ss, w) =
           (Returned tt,
            ({| agent_state :=
                  Some {| topic := topic st; content_type := content_type st;
                          tone := tone st; notes := notes st; urls := urls st;
                          draft := cleaner_tool raw; review := rv;
                          feedback := feedback st |};
                ui_step := ui_step ss |}, w2))).
Proof.
  unfold rerun_write_review, bind, call, get_agent_state, writer_node,
    reviewer_node, ret, put_agent_state, bind. simpl.
  destruct (agent_state ss) as [st|] eqn:Est; simpl.
  2:{ left. exists TypeError, w. reflexivity. }
  destruct (writer_tool (topic st) (content_type st) (notes st) (tone st)
              (feedback st) w) as [[raw|e] w1] eqn:Ew; simpl.
  2:{ left. exists e, w1. reflexivity. }
  rewrite Est. simpl.
  destruct (reviewer_tool (cleaner_tool raw) w1) as [[rv|e] w2] eqn:Er; simpl.
  2:{ left. exists e, w2. reflexivity. }
  rewrite Est. right. exists st, raw, w1, rv, w2.
  conj_close.
Qed.

Lemma rewrite_eq (fb : str) (ss : Session) (w : World) :
  rewrite fb (ss, w) =
  match agent_state ss with
  | Some st =>
      rerun_write_review
        ({| agent_state := Some (with_feedback st fb); ui_step := ui_step ss |}, w)
  | None => (Raised TypeError, (ss, w))
  end.
Proof.
  unfold rewrite, set_feedback, bind, get_agent_state, put_agent_state. simpl.
  destruct (agent_state ss); reflexivity.
Qed.

Lemma rewrite_cases (fb : str) (ss : Session) (w : World) :
  (agent_state ss = None /\ rewrite fb (ss, w) = (Raised TypeError, (ss, w)))
  \/ (exists st,
        agent_state ss = Some st
        /\ ((exists e w',
               rewrite fb (ss, w) =
               (Raised e, ({| agent_state := Some (with_feedback st fb);
                              ui_step := ui_step ss |}, w')))
            \/ (exists raw w1 rv w2,
                  writer_tool (topic st) (content_type st) (notes st) (tone st)
                    fb w = (Returned raw, w1)
                  /\ reviewer_tool (cleaner_tool raw) w1 = (Returned rv, w2)
                  /\ rewrite fb (ss, w) =
                     (Returned tt,
                      ({| agent_state :=
                            Some {| topic := topic st;
                                    content_type := content_type st;
                                    tone := tone st; notes := notes st;
                                    urls := urls st;
                                    draft := cleaner_tool raw; review := rv;
                                    feedback := fb |};
                          ui_step := ui_step ss |}, w2))))).
Proof.
  rewrite rewrite_eq. destruct (agent_state ss) as [st|] eqn:Est.
  2:{ left. split; reflexivity. }
  right. exists st. split; [reflexivity|].
  destruct (rerun_cases {| agent_state := Some (with_feedback st fb);
                           ui_step := ui_step ss |} w)
    as [[e [w' H]]|[st' [raw [w1 [rv [w2 [Hst [Hw [Hr H]]]]]]]]]; rewrite H.
  - left. exists e, w'. reflexivity.
  - right. simpl in Hst. injection Hst as <-. simpl in *.
    exists raw, w1, rv, w2.
    conj_close.
Qed.

(** What one event can do to the stored agent state: nothing, set the
    feedback, or store a freshly sanitized draft with its review. *)
Lemma handle_cases (ev : Event) (ss : Session) (w : World) :
  let ss' := fst (snd (handle ev (ss, w))) in
  agent_state ss' = agent_state ss
  \/ (exists st fb,
        agent_state ss = Some st /\ agent_state ss' = Some (with_feedback st fb))
  \/ (exists st' raw w1 w2,
        agent_state ss' = Some st'
        /\ draft st' = cleaner_tool raw
        /\ reviewer_tool (cleaner_tool raw) w1 = (Returned (review st'), w2)).
Proof.
  destruct ev as [t c n|fb| |]; unfold handle; simpl.
  - destruct (begin_cases t c n ss w)
      as [[e [w' H]]|[results [w0 [raw [w1 [rv [w2 [_ [_ [Hr H]]]]]]]]]]; rewrite H; simpl.
    + left; reflexivity.
    + right; right. eexists _, raw, w1, w2. simpl. conj_close.
  - destruct (ui_step ss); simpl; try (left; reflexivity).
    destruct (rewrite_cases fb ss w)
      as [[_ H]|[st [Hst [[e [w' H]]|[raw [w1 [rv [w2 [_ [Hr H]]]]]]]]]]; rewrite H; simpl.
    + left; reflexivity.
    + right; left. exists st, fb. split; [exact Hst | reflexivity].
    + right; right. eexists _, raw, w1, w2. simpl. conj_close.
  - destruct (ui_step ss); simpl; left; reflexivity.
  - destruct (ui_step ss); simpl; left; reflexivity.
Qed.

Lemma review_describes_draft (ss : Session) (st : AgentState) :
  reachable ss -> agent_state ss = Some st -> describes st.
Proof.
  intros R. revert st. induction R as [|ev ss w R IH]; intros st Hst.
  - discriminate.
  - destruct (handle_cases ev ss w)
      as [H|[[st0 [fb [H0 H]]]|[st' [raw [w1 [w2 [H [Hd Hr]]]]]]]];
      rewrite H in Hst.
    + apply IH, Hst.
    + injection Hst as <-. destruct (IH st0 H0) as [u [u' Hu]].
      exists u, u'. exact Hu.
    + injection Hst as <-. exists w1, w2. rewrite Hd. exact Hr.
Qed.

Lemma rewrite_keeps_notes_urls (fb : str) (ss : Session) (w : World) :
  notes_urls (fst (snd (rewrite fb (ss, w)))) = notes_urls ss.
Proof.
  unfold notes_urls.
  destruct (rewrite_cases fb ss w)
    as [[_ H]|[st [Hst [[e [w' H]]|[raw [w1 [rv [w2 [_ [_ H]]]]]]]]]];
    rewrite H; simpl; try rewrite Hst; reflexivity.
Qed.

(** C7: for a search response with N results, the research step produces
    [notes], the results' [content] fields joined by one newline in the
    order given, and [urls], the results' [url] fields in the same order;
    with two results the notes are the first content, a newline and the
    second content, and the urls are the two urls. *)
Theorem research_step_output (state : AgentState) (w : World)
    (results : list SearchResult) (w' : World) :
  tavily_search (topic state) w = (Returned results, w') ->
  exists upd,
    research_node state w = (Returned upd, w')
    /\ upd_notes upd = Some (join [LF] (map content results))
    /\ upd_urls upd = Some (map url results)
    /\ notes (merge state upd) = join [LF] (map content results)
    /\ urls (merge state upd) = map url results
    /\ length (urls (merge state upd)) = length results
    /\ (forall r1 r2, results = [r1; r2] ->
          notes (merge state upd) = content r1 ++ [LF] ++ content r2
          /\ urls (merge state upd) = [url r1; url r2]).
Proof.
  intros H. unfold research_node, research_tool, bind, ret. rewrite H.
  eexists. split; [reflexivity|]. simpl.
  repeat (split; [reflexivity|]). split; [apply length_map|].
  intros r1 r2 ->. split; reflexivity.
Qed.

(** C2: a rewrite leaves [notes] and [urls] as they were, and so does any
    number of rewrites, failed or not; after a run of [begin] they are what
    the research step made of the search results, and stay so. *)
Theorem notes_urls_written_once (ss ss' : Session) :
  rewrite_cycles ss ss' ->
  notes_urls ss' = notes_urls ss
  /\ (forall fb w, notes_urls (fst (snd (rewrite fb (ss', w)))) = notes_urls ss)
  /\ (forall t c n ss0 w w1,
        begin t c n (ss0, w) = (Returned tt, (ss, w1)) ->
        exists results w0,
          tavily_search t w = (Returned results, w0)
          /\ notes_urls ss' =
             Some (join [LF] (map content results), map url results)).
Proof.
  intros R.
  assert (notes_urls ss' = notes_urls ss) as Hsame.
  { induction R as [|fb w ss' R IH]; [reflexivity|].
    rewrite rewrite_keeps_notes_urls. exact IH. }
  split; [exact Hsame|]. split.
  - intros fb w. rewrite rewrite_keeps_notes_urls. exact Hsame.
  - intros t c n ss0 w w1 Hb.
    destruct (begin_cases t c n ss0 w)
      as [[e [w' H]]|[results [w0 [raw [u1 [rv [u2 [Hs [_ [_ H]]]]]]]]]];
      rewrite H in Hb; [discriminate|].
    exists results, w0. split; [exact Hs|].
    rewrite Hsame. injection Hb as <- _. reflexivity.
Qed.

(** C6: on a session holding a draft and a review, a rewrite with feedback
    [f] whose two calls succeed stores [f] as feedback, the sanitized answer
    of a new writer call on the stored topic, content type, tone and notes
    with [f] as draft, and the reviewer's answer on that draft as review;
    and in every reachable session the stored review is a reviewer answer
    on the stored draft. *)
Theorem rewrite_result (st : AgentState) (ui : UiStep) (f : str) (w : World)
    (raw : str) (w1 : World) (rv : str) (w2 : World) :
  writer_tool (topic st) (content_type st) (notes st) (tone st) f w
    = (Returned raw, w1) ->
  reviewer_tool (cleaner_tool raw) w1 = (Returned rv, w2) ->
  (exists st',
     rewrite f ({| agent_state := Some st; ui_step := ui |}, w)
       = (Returned tt, ({| agent_state := Some st'; ui_step := ui |}, w2))
     /\ feedback st' = f
     /\ draft st' = cleaner_tool raw
     /\ review st' = rv
     /\ reviewer_tool (draft st') w1 = (Returned (review st'), w2)
     /\ topic st' = topic st /\ content_type st' = content_type st
     /\ tone st' = tone st /\ notes st' = notes st /\ urls st' = urls st)
  /\ (forall ss st0, reachable ss -> agent_state ss = Some st0 -> describes st0).
Proof.
  intros Hw Hr. split; [|exact review_describes_draft].
  destruct (rewrite_cases f {| agent_state := Some st; ui_step := ui |} w)
    as [[H _]|[st0 [Hst [[e [w' H]]|[raw' [u1 [rv' [u2 [Hw' [Hr' H]]]]]]]]]];
    simpl in *; [discriminate| |]; injection Hst as <-.
  - exfalso. revert H. rewrite rewrite_eq. simpl.
    unfold rerun_write_review, bind, call, get_agent_state, writer_node,
      reviewer_node, ret, put_agent_state, bind. simpl.
    rewrite Hw. simpl. rewrite Hr. simpl. discriminate.
  - rewrite Hw in Hw'. injection Hw' as <- <-.
    rewrite Hr in Hr'. injection Hr' as <- <-.
    eexists. split; [exact H|]. simpl. conj_close.
Qed.

(** C8: when a collaborator call fails, the step it belongs to leaves the
    session as it was when the step began.  A failed run of [begin] leaves
    the whole session untouched, whichever of its three steps failed; the
    write and review steps that a rewrite runs again leave the session
    untouched when either fails, so after a failed rewrite the session is
    what the feedback assignment before the write step made it, every
    other field being as before the rewrite. *)
Theorem failed_step_leaves_state (ss : Session) (w : World) (e : exn)
    (ss' : Session) (w' : World) :
  (forall t c n, begin t c n (ss, w) = (Raised e, (ss', w')) -> ss' = ss)
  /\ (rerun_write_review (ss, w) = (Raised e, (ss', w')) -> ss' = ss)
  /\ (forall fb, rewrite fb (ss, w) = (Raised e, (ss', w')) ->
        ss' = fst (snd (set_feedback fb (ss, w)))
        /\ ui_step ss' = ui_step ss
        /\ option_map (fun st => with_feedback st []) (agent_state ss')
           = option_map (fun st => with_feedback st []) (agent_state ss)).
Proof.
  split; [|split].
  - intros t c n H.
    destruct (begin_cases t c n ss w)
      as [[e0 [w0 H0]]|[results [w0 [raw [w1 [rv [w2 [_ [_ [_ H0]]]]]]]]]];
      rewrite H0 in H; [|discriminate].
    injection H as _ <- _. reflexivity.
  - intros H.
    destruct (rerun_cases ss w)
      as [[e0 [w0 H0]]|[st [raw [w1 [rv [w2 [_ [_ [_ H0]]]]]]]]];
      rewrite H0 in H; [|discriminate].
    injection H as _ <- _. reflexivity.
  - intros fb H.
    unfold set_feedback, bind, get_agent_state, put_agent_state. simpl.
    destruct (rewrite_cases fb ss w)
      as [[Hn H0]|[st [Hst [[e0 [w0 H0]]|[raw [w1 [rv [w2 [_ [_ H0]]]]]]]]]];
      rewrite H0 in H; try discriminate.
    + injection H as _ <- _. rewrite ?Hn. simpl. rewrite ?Hn. conj_close.
    + injection H as _ <- _. rewrite ?Hst. simpl. rewrite ?Hst. conj_close.
Qed.

(** C10: in every reachable session that stores an agent state, the stored
    draft is an output of the sanitizer: none of the four patterns matches
    it and it equals its own stripped form. *)
Theorem stored_draft_is_sanitized (ss : Session) (st : AgentState) :
  reachable ss -> agent_state ss = Some st ->
  (exists raw, draft st = cleaner_tool raw)
  /\ (forall p, In p patterns -> ~ matches p (draft st))
  /\ strip (draft st) = draft st.
Proof.
  intros R Hst.
  assert (exists raw, draft st = cleaner_tool raw) as [raw Hraw].
  { revert st Hst. induction R as [|ev ss w R IH]; intros st Hst; [discriminate|].
    destruct (handle_cases ev ss w)
      as [H|[[st0 [fb [H0 H]]]|[st' [raw [w1 [w2 [H [Hd _]]]]]]]];
      rewrite H in Hst.
    - apply IH, Hst.
    - injection Hst as <-. exact (IH st0 H0).
    - injection Hst as <-. exists raw. exact Hd. }
  split; [exists raw; exact Hraw|]. rewrite Hraw. split.
  - intros p Hp Hm. apply Hm, cleaner_tool_free, Hp.
  - apply cleaner_tool_stripped.
Qed.

End Pipeline.

Example demo_gate_state :
  demo_gate = {| agent_state := Some demo_state; ui_step := Gate |}.
Proof. vm_compute. reflexivity. Qed.

Lemma research_step_output_witness :
  @tavily_search demo (topic demo_state) 0 = (Returned two_results, 0)
  /\ exists upd,
       @research_node demo demo_state 0 = (Returned upd, 0)
       /\ notes (merge demo_state upd) = lit "A" ++ [LF] ++ lit "B"
       /\ urls (merge demo_state upd) = [lit "u1"; lit "u2"].
Proof.
  split; [reflexivity|].
  destruct (@research_step_output demo demo_state 0 two_results 0 eq_refl)
    as [upd [Hrun [_ [_ [_ [_ [_ Htwo]]]]]]].
  exists upd. split; [exact Hrun|]. exact (Htwo _ _ eq_refl).
Defined.

Lemma notes_urls_written_once_witness :
  @rewrite_cycles demo demo_gate
    (fst (snd (@rewrite demo (lit "shorter")
                 (fst (snd (@rewrite demo (lit "more formal") (demo_gate, 2))), 4))))
  /\ notes_urls
       (fst (snd (@rewrite demo (lit "shorter")
                    (fst (snd (@rewrite demo (lit "more formal") (demo_gate, 2))), 4))))
     = Some (lit "A" ++ [LF] ++ lit "B", [lit "u1"; lit "u2"]).
Proof.
  pose proof (@cycles_more demo demo_gate (lit "shorter") 4 _
                (@cycles_more demo demo_gate (lit "more formal") 2 _
                   (@cycles_none demo demo_gate))) as R.
  split; [exact R|].
  destruct (@notes_urls_written_once demo _ _ R) as [H _].
  exact (eq_trans H eq_refl).
Defined.

Lemma rewrite_result_witness :
  @writer_tool demo (topic demo_state) (content_type demo_state)
    (notes demo_state) (tone demo_state) (lit "more formal") 2
    = (Returned (lit "Formal content here. Refined for clarity and tone."), 3)
  /\ @reviewer_tool demo
       (cleaner_tool (lit "Formal content here. Refined for clarity and tone.")) 3
     = (Returned (lit "Score: 9/10. Formal, clear, sourced."), 4)
  /\ exists st',
       @rewrite demo (lit "more formal")
         ({| agent_state := Some demo_state; ui_step := Gate |}, 2)
       = (Returned tt, ({| agent_state := Some st'; ui_step := Gate |}, 4))
       /\ feedback st' = lit "more formal"
       /\ draft st' = lit "Formal content here."
       /\ review st' = lit "Score: 9/10. Formal, clear, sourced."
       /\ notes st' = notes demo_state /\ urls st' = urls demo_state.
Proof.
  split; [reflexivity|]. split; [reflexivity|].
  destruct (@rewrite_result demo demo_state Gate (lit "more formal") 2
              _ 3 _ 4 eq_refl eq_refl)
    as [[st' [Hrun [Hf [Hd [Hr [_ [_ [_ [_ [Hn Hu]]]]]]]]]] _].
  exists st'. split; [exact Hrun|]. split; [exact Hf|].
  split; [rewrite Hd; vm_compute; reflexivity|].
  split; [exact Hr|]. split; [exact Hn | exact Hu].
Defined.

Lemma failed_step_leaves_state_witness :
  @begin demo (lit "Soil sensors") Newsletter CasualEngaging (demo_gate, 4)
    = (Raised rate_limited, (demo_gate, 5))
  /\ @rerun_write_review demo (demo_gate, 4) = (Raised rate_limited, (demo_gate, 5))
  /\ @rewrite demo (lit "shorter") (demo_gate, 4)
     = (Raised rate_limited,
        ({| agent_state := Some (with_feedback demo_state (lit "shorter"));
            ui_step := Gate |}, 5))
  /\ {| agent_state := Some (with_feedback demo_state (lit "shorter"));
        ui_step := Gate |}
     = fst (snd (@set_feedback demo (lit "shorter") (demo_gate, 4))).
Proof.
  assert (@begin demo (lit "Soil sensors") Newsletter CasualEngaging (demo_gate, 4)
          = (Raised rate_limited, (demo_gate, 5))) as Hb by (vm_compute; reflexivity).
  assert (@rerun_write_review demo (demo_gate, 4)
          = (Raised rate_limited, (demo_gate, 5))) as Hs by (vm_compute; reflexivity).
  assert (@rewrite demo (lit "shorter") (demo_gate, 4)
          = (Raised rate_limited,
             ({| agent_state := Some (with_feedback demo_state (lit "shorter"));
                 ui_step := Gate |}, 5))) as Hr by (vm_compute; reflexivity).
  split; [exact Hb|]. split; [exact Hs|]. split; [exact Hr|].
  pose proof (proj1 (@failed_step_leaves_state demo demo_gate 4 rate_limited
                       demo_gate 5) _ _ _ Hb) as _.
  exact (proj1 (proj2 (proj2 (@failed_step_leaves_state demo demo_gate 4 rate_limited
                                _ 5)) (lit "shorter") Hr)).
Defined.

Example failed_review_keeps_draft :
  @rewrite demo (lit "shorter") (demo_gate, 3)
  = (Raised rate_limited,
     ({| agent_state := Some (with_feedback demo_state (lit "shorter"));
         ui_step := Gate |}, 5)).
Proof. vm_compute. reflexivity. Qed.

Lemma stored_draft_is_sanitized_witness :
  @reachable demo demo_gate
  /\ agent_state demo_gate = Some demo_state
  /\ (forall p, In p patterns -> ~ matches p (draft demo_state))
  /\ strip (draft demo_state) = draft demo_state.
Proof.
  assert (@reachable demo demo_gate) as R
    by exact (@reach_step demo (Begin demo_topic BlogPost FormalCorporate)
                initial_session 0 (@reach_init demo)).
  assert (agent_state demo_gate = Some demo_state) as Hst by (vm_compute; reflexivity).
  split; [exact R|]. split; [exact Hst|].
  exact (proj2 (@stored_draft_is_sanitized demo demo_gate demo_state R Hst)).
Defined.

(** ** The exported story *)

Lemma body_loop_run (markup_ok : str -> bool) (segs : list str)
    (story : list Flowable) :
  for_each
    (fun story para =>
       if nonblank para then
         and_then (new_paragraph markup_ok para BodyText)
           (fun p => Returned (story ++ [p; Spacer 1 6]))
       else Returned story)
    segs story
  = if forallb markup_ok (filter nonblank segs)
    then Returned (story ++ flat_map body_block (filter nonblank segs))
    else Raised ValueError.
Proof.
  revert story. induction segs as [|para segs IH]; intros story; simpl.
  - rewrite app_nil_r. reflexivity.
  - destruct (nonblank para); simpl; [|apply IH].
    unfold new_paragraph. destruct (markup_ok para); simpl; [|reflexivity].
    rewrite IH. destruct (forallb markup_ok (filter nonblank segs)); [|reflexivity].
    rewrite <- app_assoc. reflexivity.
Qed.

Lemma sources_loop_run (markup_ok : str -> bool) (urls : list str)
    (story : list Flowable) :
  for_each
    (fun story url =>
       and_then (new_paragraph markup_ok (source_markup url) BodyText)
         (fun p => Returned (story ++ [p])))
    urls story
  = if forallb markup_ok (map source_markup urls)
    then Returned (story ++ map source_line urls)
    else Raised ValueError.
Proof.
  revert story. induction urls as [|u urls IH]; intros story; simpl.
  - rewrite app_nil_r. reflexivity.
  - unfold new_paragraph. destruct (markup_ok (source_markup u)); simpl; [|reflexivity].
    rewrite IH. destruct (forallb markup_ok (map source_markup urls)); [|reflexivity].
    rewrite <- app_assoc. reflexivity.
Qed.

Lemma generate_pdf_run (str_upper : str -> str) (markup_ok : str -> bool)
    (Pdf : Type) (doc_build : list Flowable -> outcome Pdf)
    (text title : str) (urls : list str) :
  generate_pdf str_upper markup_ok doc_build text title urls
  = if forallb markup_ok (paragraph_texts str_upper text title urls)
    then doc_build
           ([Paragraph (lit "<b>" ++ str_upper title ++ lit "</b>") TitleStyle;
             Spacer 1 12]
            ++ flat_map body_block (filter nonblank (split_on LF text))
            ++ match urls with
               | [] => []
               | _ :: _ => rule_and_heading ++ map source_line urls
               end)
    else Raised ValueError.
Proof.
  unfold generate_pdf, paragraph_texts.
  change (forallb markup_ok (?x :: ?l)) with (markup_ok x && forallb markup_ok l).
  unfold new_paragraph at 1.
  destruct (markup_ok (lit "<b>" ++ str_upper title ++ lit "</b>")); [|reflexivity].
  cbn [and_then andb]. rewrite body_loop_run, forallb_app.
  destruct (forallb markup_ok (filter nonblank (split_on LF text))); [|reflexivity].
  cbn [and_then andb]. destruct urls as [|u urls].
  - cbn [and_then forallb]. rewrite app_nil_r. reflexivity.
  - change (forallb markup_ok (?x :: ?l)) with (markup_ok x && forallb markup_ok l).
    unfold new_paragraph at 1.
    destruct (markup_ok (lit "<b>VERIFIED SOURCES:</b>")); [|reflexivity].
    cbn [and_then andb]. rewrite sources_loop_run.
    destruct (forallb markup_ok (map source_markup (u :: urls))); [|reflexivity].
    cbn [and_then]. unfold rule_and_heading. rewrite <- !app_assoc. reflexivity.
Qed.

Lemma paragraphs_in_app (style : Style) (a b : list Flowable) :
  paragraphs_in style (a ++ b) = paragraphs_in style a ++ paragraphs_in style b.
Proof. apply flat_map_app. Qed.

Lemma paragraphs_in_body (segs : list str) :
  paragraphs_in BodyText (flat_map body_block segs) = segs.
Proof.
  induction segs as [|para segs IH]; simpl; [reflexivity | rewrite IH; reflexivity].
Qed.

Lemma paragraphs_in_sources (urls : list str) :
  paragraphs_in BodyText (map source_line urls) = map source_markup urls.
Proof.
  induction urls as [|u urls IH]; simpl; [reflexivity | rewrite IH; reflexivity].
Qed.

(** C9, as the code has it: [generate_pdf] makes a title heading, then one
    body paragraph for every newline-delimited segment of the text that is
    not empty or all whitespace (such segments are skipped), then, exactly
    when the url list is not empty, a rule, the sources heading and one line
    for every url in order.  When reportlab accepts the markup of each of
    these paragraphs, this story is what [doc.build] is given and the result
    is [doc.build]'s; when it rejects one, [generate_pdf] raises
    [ValueError] and nothing is built. *)
Theorem generate_pdf_story (str_upper : str -> str) (markup_ok : str -> bool)
    (Pdf : Type) (doc_build : list Flowable -> outcome Pdf)
    (text title : str) (urls : list str) :
  let body := flat_map body_block (filter nonblank (split_on LF text)) in
  let sources :=
    match urls with
    | [] => []
    | _ :: _ => rule_and_heading ++ map source_line urls
    end in
  generate_pdf str_upper markup_ok doc_build text title urls
  = (if forallb markup_ok (paragraph_texts str_upper text title urls)
     then doc_build
            ([Paragraph (lit "<b>" ++ str_upper title ++ lit "</b>") TitleStyle;
              Spacer 1 12]
             ++ body ++ sources)
     else Raised ValueError)
  /\ paragraphs_in BodyText body = filter nonblank (split_on LF text)
  /\ paragraphs_in BodyText sources = map source_markup urls
  /\ paragraphs_in Heading3 sources
     = match urls with [] => [] | _ :: _ => [lit "<b>VERIFIED SOURCES:</b>"] end.
Proof.
  cbv zeta. split; [|split; [|split]].
  - apply generate_pdf_run.
  - apply paragraphs_in_body.
  - destruct urls as [|u urls]; [reflexivity|].
    rewrite paragraphs_in_app. simpl. f_equal. apply paragraphs_in_sources.
  - destruct urls as [|u urls]; [reflexivity|].
    rewrite paragraphs_in_app. simpl. f_equal.
    induction urls as [|v urls IH]; simpl; [reflexivity | exact IH].
Qed.

Example generate_pdf_two_paragraphs :
  generate_pdf ascii_upper (tags_nest 0) show_story
    (lit "Para1" ++ [LF] ++ lit "Para2") (lit "ai") [lit "http://x"]
  = Returned
      [Paragraph (lit "<b>AI</b>") TitleStyle; Spacer 1 12;
       Paragraph (lit "Para1") BodyText; Spacer 1 6;
       Paragraph (lit "Para2") BodyText; Spacer 1 6;
       Spacer 1 20; HRFlowable (lit "100%") 1; Spacer 1 12;
       Paragraph (lit "<b>VERIFIED SOURCES:</b>") Heading3;
       Paragraph (source_markup (lit "http://x")) BodyText].
Proof. vm_compute. reflexivity. Qed.

Example generate_pdf_unclosed_tag :
  generate_pdf ascii_upper (tags_nest 0) show_story (lit "<b>bold") (lit "t") []
  = Raised ValueError.
Proof. vm_compute. reflexivity. Qed.

(** C9, as stated, fails: this text has three newline-delimited segments,
    the middle one empty, and the story has two body paragraphs. *)
Lemma blank_segment_has_no_paragraph :
  let text := lit "a" ++ [LF; LF] ++ lit "b" in
  split_on LF text = [lit "a"; []; lit "b"]
  /\ generate_pdf ascii_upper (tags_nest 0) show_story text (lit "t") []
     = Returned
         [Paragraph (lit "<b>T</b>") TitleStyle; Spacer 1 12;
          Paragraph (lit "a") BodyText; Spacer 1 6;
          Paragraph (lit "b") BodyText; Spacer 1 6]
  /\ paragraphs_in BodyText
       [Paragraph (lit "<b>T</b>") TitleStyle; Spacer 1 12;
        Paragraph (lit "a") BodyText; Spacer 1 6;
        Paragraph (lit "b") BodyText; Spacer 1 6]
     = [lit "a"; lit "b"]
  /\ length [lit "a"; lit "b"] <> length (split_on LF text).
Proof.
  vm_compute. repeat split; discriminate.
Qed.

(** * Further properties of the code *)

(** ** The sanitizer on any input *)

Lemma matches_at_matches (p s : str) (i : nat) :
  matches_at p s i -> matches p s.
Proof.
  unfold matches_at, matches. intros H E.
  rewrite (re_search_None p s E i) in H. discriminate.
Qed.

Lemma matches_dec (s : str) :
  (exists p, In p patterns /\ matches p s)
  \/ (forall p, In p patterns -> re_search p s = None).
Proof.
  destruct (existsb (fun p => match re_search p s with Some _ => true | None => false end)
              patterns) eqn:E.
  - left. apply existsb_exists in E. destruct E as [p [Hp Hm]].
    exists p. split; [exact Hp|]. unfold matches.
    destruct (re_search p s); [discriminate | discriminate].
  - right. intros p Hp. destruct (re_search p s) as [i|] eqn:Es; [|reflexivity].
    assert (existsb (fun p => match re_search p s with Some _ => true | None => false end)
              patterns = true) as E'.
    { apply existsb_exists. exists p. split; [exact Hp|]. rewrite Es. reflexivity. }
    congruence.
Qed.

(** X1: the output is a contiguous piece of the input: the sanitizer only
    removes text at the two ends, it never inserts, replaces or reorders. *)
Theorem cleaner_tool_is_piece (content : str) :
  (exists before after, content = before ++ cleaner_tool content ++ after)
  /\ length (cleaner_tool content) <= length content.
Proof.
  assert (exists before after, content = before ++ cleaner_tool content ++ after)
    as [a [b H]].
  { unfold cleaner_tool.
    destruct (loop_split patterns content) as [t [Ht _]].
    destruct (strip_middle
                (fold_left (fun clean p => re_split_head p clean) patterns content))
      as [a [b Hs]].
    exists a, (b ++ t). rewrite Ht at 1. rewrite Hs at 1.
    rewrite <- !app_assoc. reflexivity. }
  split; [exists a, b; exact H|].
  rewrite H at 2. rewrite !length_app. lia.
Qed.

(** X2: the order of the pattern list does not matter: a loop over any list
    holding the same four patterns, in any order and with repetitions,
    gives the output of [cleaner_tool]. *)
Theorem cleaner_tool_order_irrelevant (pats : list str) (content : str) :
  (forall p, In p pats <-> In p patterns) ->
  strip (fold_left (fun clean p => re_split_head p clean) pats content)
  = cleaner_tool content.
Proof.
  intros Hsame. destruct (matches_dec content) as [Hm|Hfree].
  - destruct (earliest_match_exists content Hm) as [i [[p [Hp Hi]] Hleast]].
    rewrite (cleaner_tool_cut_at content i).
    + f_equal. apply loop_cut.
      * intros q Hq. apply patterns_nonempty, Hsame, Hq.
      * intros a b Ha Hb. apply patterns_no_straddle; apply Hsame; assumption.
      * exists p. split; [apply Hsame, Hp | exact Hi].
      * intros q j Hq Hj Hmq. apply Hsame in Hq. specialize (Hleast q j Hq Hmq). lia.
    + exists p. split; [exact Hp | exact Hi].
    + intros q j Hq Hj Hmq. specialize (Hleast q j Hq Hmq). lia.
  - rewrite (cleaner_tool_on_free content Hfree). f_equal. apply loop_id.
    intros p Hp. apply Hfree, Hsame, Hp.
Qed.

Lemma cleaner_tool_order_irrelevant_witness :
  (forall p, In p (rev patterns) <-> In p patterns)
  /\ strip (fold_left (fun clean p => re_split_head p clean) (rev patterns)
              (lit "Good. NOTE: x. I made the following changes"))
     = lit "Good.".
Proof.
  assert (forall p, In p (rev patterns) <-> In p patterns) as H
    by (intros p; symmetry; apply in_rev).
  split; [exact H|].
  exact (eq_trans
           (cleaner_tool_order_irrelevant (rev patterns)
              (lit "Good. NOTE: x. I made the following changes") H)
           eq_refl).
Defined.

Lemma match_stays_inside (q p a s : str) (j : nat) :
  In q patterns -> In p patterns -> imatch_prefix p s = true ->
  j < length a -> matches_at q (a ++ s) j -> matches_at q a j.
Proof.
  unfold matches_at. intros Hq Hp Hs Hj Hm.
  rewrite skipn_app in Hm. replace (j - length a) with 0 in Hm by lia. simpl in Hm.
  assert (length (skipn j a) = length a - j) as Hlen by apply length_skipn.
  destruct (Nat.le_gt_cases (length q) (length (skipn j a))) as [Hle|Hgt].
  - pose proof (imatch_prefix_firstn q _ (length (skipn j a)) Hm Hle) as H.
    rewrite firstn_app, firstn_all, Nat.sub_diag in H. simpl in H.
    rewrite app_nil_r in H. exact H.
  - assert (may_straddle q p = true) as Hst.
    { apply may_straddle_intro with (s := skipn j a ++ s) (k := length (skipn j a));
        [exact Hm| |lia].
      rewrite skipn_app, skipn_all, Nat.sub_diag. simpl. exact Hs. }
    rewrite (patterns_no_straddle q p Hq Hp) in Hst. discriminate.
Qed.

Lemma cut_at_phrase (a s : str) :
  (exists p, In p patterns /\ imatch_prefix p s = true) ->
  cleaner_tool (a ++ s) = cleaner_tool a.
Proof.
  intros [p [Hp Hs]].
  assert (matches_at p (a ++ s) (length a)) as Hat.
  { unfold matches_at. rewrite skipn_app, skipn_all, Nat.sub_diag. exact Hs. }
  destruct (earliest_match_exists (a ++ s)) as [i [[q [Hq Hi]] Hleast]].
  { exists p. split; [exact Hp | exact (matches_at_matches _ _ _ Hat)]. }
  pose proof (Hleast p (length a) Hp Hat) as Hia.
  rewrite (cleaner_tool_cut_at (a ++ s) i).
  2:{ exists q. split; [exact Hq | exact Hi]. }
  2:{ intros r j Hr Hj Hm. specialize (Hleast r j Hr Hm). lia. }
  rewrite firstn_app. replace (i - length a) with 0 by lia. simpl. rewrite app_nil_r.
  destruct (Nat.eq_dec i (length a)) as [->|Hne].
  - rewrite firstn_all. symmetry. apply cleaner_tool_on_free.
    intros r Hr. apply re_search_None_intro. intros j.
    destruct (Nat.lt_ge_cases j (length a)) as [Hj|Hj].
    + apply not_true_iff_false. intros Hm.
      assert (matches_at r (a ++ s) j) as Hm'.
      { unfold matches_at. rewrite skipn_app. apply imatch_prefix_app, Hm. }
      specialize (Hleast r j Hr Hm'). lia.
    + rewrite skipn_all2 by lia. apply imatch_prefix_nil, patterns_nonempty, Hr.
  - symmetry. apply cleaner_tool_cut_at.
    + exists q. split; [exact Hq|].
      apply (match_stays_inside q p a s i Hq Hp Hs); [lia | exact Hi].
    + intros r j Hr Hj Hm.
      assert (matches_at r (a ++ s) j) as Hm'.
      { unfold matches_at. rewrite skipn_app. apply imatch_prefix_app, Hm. }
      specialize (Hleast r j Hr Hm'). lia.
Qed.

(** X3: whatever follows a recognized phrase is discarded with it: a text that
    continues with a phrase, and anything after, is sanitized to the same
    output as the text before the phrase alone. *)
Theorem cleaner_tool_ignores_tail (a s : str) :
  (exists p, In p patterns /\ imatch_prefix p s = true) ->
  cleaner_tool (a ++ s) = cleaner_tool a.
Proof. exact (cut_at_phrase a s). Qed.

Lemma cleaner_tool_ignores_tail_witness :
  (exists p, In p patterns /\
     imatch_prefix p (lit "SIMPLIFIED SENTENCE structure." ++ [LF] ++ lit "More.") = true)
  /\ cleaner_tool (lit "Body text. " ++
                   (lit "SIMPLIFIED SENTENCE structure." ++ [LF] ++ lit "More."))
     = lit "Body text.".
Proof.
  assert (exists p, In p patterns /\
            imatch_prefix p (lit "SIMPLIFIED SENTENCE structure." ++ [LF] ++ lit "More.")
            = true) as H.
  { exists (lit "Simplified sentence").
    split; [right; right; right; left; reflexivity | vm_compute; reflexivity]. }
  split; [exact H|].
  exact (eq_trans (cleaner_tool_ignores_tail (lit "Body text. ") _ H) eq_refl).
Defined.

Lemma strip_spaces (s : str) : forallb isspace s = true -> strip s = [].
Proof.
  intros H. unfold strip.
  replace (lstrip s) with (lstrip (s ++ [])) by (rewrite app_nil_r; reflexivity).
  rewrite (lstrip_spaces s [] H). reflexivity.
Qed.

(** X4: a text that opens with a recognized phrase, after whitespace at most,
    is sanitized to the empty text: the whole answer is discarded. *)
Theorem cleaner_tool_leading_phrase (ws s : str) :
  forallb isspace ws = true ->
  (exists p, In p patterns /\ imatch_prefix p s = true) ->
  cleaner_tool (ws ++ s) = [].
Proof.
  intros Hws Hs. rewrite (cut_at_phrase ws s Hs). unfold cleaner_tool.
  apply strip_spaces.
  destruct (loop_split patterns ws) as [t [Ht _]].
  rewrite Ht, forallb_app in Hws. apply andb_true_iff in Hws. apply Hws.
Qed.

Lemma cleaner_tool_leading_phrase_witness :
  forallb isspace ([LF] ++ lit "  ") = true
  /\ (exists p, In p patterns /\
        imatch_prefix p (lit "I made the following changes: shorter.") = true)
  /\ cleaner_tool (([LF] ++ lit "  ") ++ lit "I made the following changes: shorter.")
     = [].
Proof.
  assert (exists p, In p patterns /\
            imatch_prefix p (lit "I made the following changes: shorter.") = true) as H.
  { exists (lit "I made the following").
    split; [left; reflexivity | vm_compute; reflexivity]. }
  split; [reflexivity|]. split; [exact H|].
  exact (cleaner_tool_leading_phrase ([LF] ++ lit "  ") _ eq_refl H).
Defined.

(** ** Letter case *)

Section Recase.

Variable f : char -> char.

Hypothesis f_imatch : forall av c, imatch av (f c) = imatch av c.

Hypothesis f_isspace : forall c, isspace (f c) = isspace c.

Lemma imatch_prefix_map (p s : str) :
  imatch_prefix p (map f s) = imatch_prefix p s.
Proof.
  revert s. induction p as [|av p IH]; intros s; [reflexivity|].
  destruct s as [|c s]; simpl; [reflexivity|]. rewrite f_imatch, IH. reflexivity.
Qed.

Lemma re_search_map (p s : str) : re_search p (map f s) = re_search p s.
Proof.
  induction s as [|c s IH].
  - reflexivity.
  - rewrite (re_search_eq p (c :: s)), (re_search_eq p (map f (c :: s))).
    rewrite imatch_prefix_map. simpl. rewrite IH. reflexivity.
Qed.

Lemma loop_map (pats : list str) (s : str) :
  fold_left (fun clean p => re_split_head p clean) pats (map f s)
  = map f (fold_left (fun clean p => re_split_head p clean) pats s).
Proof.
  revert s. induction pats as [|p pats IH]; intros s; simpl; [reflexivity|].
  unfold re_split_head at 2 4. rewrite re_search_map.
  destruct (re_search p s) as [i|]; [|apply IH].
  rewrite firstn_map. apply IH.
Qed.

Lemma lstrip_map (s : str) : lstrip (map f s) = map f (lstrip s).
Proof.
  induction s as [|c s IH]; simpl; [reflexivity|].
  rewrite f_isspace. destruct (isspace c); [exact IH | reflexivity].
Qed.

Lemma strip_map (s : str) : strip (map f s) = map f (strip s).
Proof.
  unfold strip, rstrip. rewrite lstrip_map, <- map_rev, lstrip_map, map_rev.
  reflexivity.
Qed.

Lemma cleaner_tool_map (s : str) : cleaner_tool (map f s) = map f (cleaner_tool s).
Proof. unfold cleaner_tool. rewrite loop_map. apply strip_map. Qed.

End Recase.

Lemma upper_imatch (av c : char) :
  imatch av (if in_range 0x61 0x7A c then (c - 32)%N else c) = imatch av c.
Proof.
  destruct (in_range 0x61 0x7A c) eqn:R; [|reflexivity].
  unfold in_range in R. apply andb_true_iff in R. destruct R as [R1 R2].
  apply N.leb_le in R1, R2.
  assert (sre_lower_unicode (c - 32)%N = c) as L1.
  { unfold sre_lower_unicode, in_range.
    destruct (N.leb_spec 0x41 (c - 32)%N); [|lia].
    destruct (N.leb_spec (c - 32)%N 0x5A); [|lia]. simpl. lia. }
  assert (sre_lower_unicode c = c) as L2.
  { unfold sre_lower_unicode, in_range.
    destruct (N.leb_spec 0x41 c); [|lia].
    destruct (N.leb_spec c 0x5A); [lia|]. simpl.
    destruct (N.eqb_spec c 0x130); [lia|].
    destruct (N.eqb_spec c 0x212A); [lia | reflexivity]. }
  unfold imatch. rewrite L1, L2.
  destruct (unicode_iscased av) eqn:Cav; [reflexivity|].
  unfold unicode_iscased, in_range in Cav.
  apply orb_false_iff in Cav. destruct Cav as [C1 C2].
  apply andb_false_iff in C1, C2.
  rewrite !N.leb_gt in C1, C2.
  destruct (N.eqb_spec (c - 32)%N av); destruct (N.eqb_spec c av);
    try reflexivity; exfalso; lia.
Qed.

Lemma upper_isspace (c : char) :
  isspace (if in_range 0x61 0x7A c then (c - 32)%N else c) = isspace c.
Proof.
  destruct (in_range 0x61 0x7A c) eqn:R; [|reflexivity].
  unfold in_range in R. apply andb_true_iff in R. destruct R as [R1 R2].
  apply N.leb_le in R1, R2.
  assert (forall x, (65 <= x <= 122)%N -> isspace x = false) as H.
  { intros x Hx. unfold isspace, in_range.
    repeat match goal with
           | |- context [(?a <=? ?b)%N] => destruct (N.leb_spec a b); try lia
           | |- context [(?a =? ?b)%N] => destruct (N.eqb_spec a b); try lia
           end; reflexivity. }
  rewrite (H c), (H (c - 32)%N) by lia. reflexivity.
Qed.

(** X5: matching ignores letter case: turning the ASCII letters of a text to
    upper case turns those of the output to upper case and changes nothing
    else, so the cut falls at the same place. *)
Theorem cleaner_tool_ignores_case (text : str) :
  cleaner_tool (ascii_upper text) = ascii_upper (cleaner_tool text)
  /\ length (cleaner_tool (ascii_upper text)) = length (cleaner_tool text).
Proof.
  assert (cleaner_tool (ascii_upper text) = ascii_upper (cleaner_tool text)) as H.
  { unfold ascii_upper. apply cleaner_tool_map; [exact upper_imatch | exact upper_isspace]. }
  split; [exact H|]. rewrite H. unfold ascii_upper. apply length_map.
Qed.

(** ** Runs of the handlers *)

Section Runs.

Context `{C : Collaborators}.

Lemma begin_run (t : str) (c : Format) (n : Tone) (ss : Session) (w : World) :
  begin t c n (ss, w) =
  match tavily_search t w with
  | (Raised e, w0) => (Raised e, (ss, w0))
  | (Returned results, w0) =>
      match writer_tool t (format_label c) (join [LF] (map content results))
              (tone_label n) [] w0 with
      | (Raised e, w1) => (Raised e, (ss, w1))
      | (Returned raw, w1) =>
          match reviewer_tool (cleaner_tool raw) w1 with
          | (Raised e, w2) => (Raised e, (ss, w2))
          | (Returned rv, w2) =>
              (Returned tt,
               ({| agent_state :=
                     Some {| topic := t; content_type := format_label c;
                             tone := tone_label n;
                             notes := join [LF] (map content results);
                             urls := map url results;
                             draft := cleaner_tool raw; review := rv;
                             feedback := [] |};
                   ui_step := Gate |}, w2))
          end
      end
  end.
Proof.
  unfold begin, bind, call, research_node, research_tool, writer_node,
    reviewer_node, ret, put_agent_state, put_ui_step, bind. simpl.
  destruct (tavily_search t w) as [[results|e] w0]; simpl; [|reflexivity].
  destruct (writer_tool t (format_label c) (join [LF] (map content results))
              (tone_label n) [] w0) as [[raw|e] w1]; simpl; [|reflexivity].
  destruct (reviewer_tool (cleaner_tool raw) w1) as [[rv|e] w2]; reflexivity.
Qed.

Lemma rerun_run (ss : Session) (w : World) :
  rerun_write_review (ss, w) =
  match agent_state ss with
  | None => (Raised TypeError, (ss, w))
  | Some st =>
      match writer_tool (topic st) (content_type st) (notes st) (tone st)
              (feedback st) w with
      | (Raised e, w1) => (Raised e, (ss, w1))
      | (Returned raw, w1) =>
          match reviewer_tool (cleaner_tool raw) w1 with
          | (Raised e, w2) => (Raised e, (ss, w2))
          | (Returned rv, w2) =>
              (Returned tt,
               ({| agent_state :=
                     Some {| topic := topic st; content_type := content_type st;
                             tone := tone st; notes := notes st; urls := urls st;
                             draft := cleaner_tool raw; review := rv;
                             feedback := feedback st |};
                   ui_step := ui_step ss |}, w2))
          end
      end
  end.
Proof.
  unfold rerun_write_review, bind, call, get_agent_state, writer_node,
    reviewer_node, ret, raise, put_agent_state, bind. simpl.
  destruct (agent_state ss) as [st|] eqn:Est; simpl; [|reflexivity].
  destruct (writer_tool (topic st) (content_type st) (notes st) (tone st)
              (feedback st) w) as [[raw|e] w1]; simpl; [|reflexivity].
  rewrite Est. simpl.
  destruct (reviewer_tool (cleaner_tool raw) w1) as [[rv|e] w2]; simpl; [|reflexivity].
  rewrite Est. reflexivity.
Qed.

(** X6: a run of [begin] whose three calls return stores the topic and the
    labels chosen, the notes and urls of the search results, the sanitized
    answer of the writer (asked with those notes and empty feedback), the
    reviewer's answer on the sanitized draft, and an empty feedback, and
    moves to the gate; nothing of the session before the run is kept. *)
Theorem begin_result (t : str) (c : Format) (n : Tone) (ss : Session) (w : World)
    (results : list SearchResult) (w0 : World) (raw : str) (w1 : World)
    (rv : str) (w2 : World) :
  tavily_search t w = (Returned results, w0) ->
  writer_tool t (format_label c) (join [LF] (map content results))
    (tone_label n) [] w0 = (Returned raw, w1) ->
  reviewer_tool (cleaner_tool raw) w1 = (Returned rv, w2) ->
  begin t c n (ss, w) =
  (Returned tt,
   ({| agent_state :=
         Some {| topic := t; content_type := format_label c; tone := tone_label n;
                 notes := join [LF] (map content results);
                 urls := map url results;
                 draft := cleaner_tool raw; review := rv; feedback := [] |};
       ui_step := Gate |}, w2)).
Proof.
  intros Hs Hw Hr. rewrite begin_run, Hs, Hw, Hr. reflexivity.
Qed.

(** X7: a failing call ends the run of [begin] at once with the exception of
    that call: the world is as the failing call left it, so no later
    collaborator was called and nothing was retried, and the session is
    untouched. *)
Theorem begin_failure_propagates (t : str) (c : Format) (n : Tone) (ss : Session)
    (w : World) (e : exn) (w' : World) :
  (tavily_search t w = (Raised e, w') ->
   begin t c n (ss, w) = (Raised e, (ss, w')))
  /\ (forall results w0,
        tavily_search t w = (Returned results, w0) ->
        writer_tool t (format_label c) (join [LF] (map content results))
          (tone_label n) [] w0 = (Raised e, w') ->
        begin t c n (ss, w) = (Raised e, (ss, w')))
  /\ (forall results w0 raw w1,
        tavily_search t w = (Returned results, w0) ->
        writer_tool t (format_label c) (join [LF] (map content results))
          (tone_label n) [] w0 = (Returned raw, w1) ->
        reviewer_tool (cleaner_tool raw) w1 = (Raised e, w') ->
        begin t c n (ss, w) = (Raised e, (ss, w'))).
Proof.
  split; [|split].
  - intros Hs. rewrite begin_run, Hs. reflexivity.
  - intros results w0 Hs Hw. rewrite begin_run, Hs, Hw. reflexivity.
  - intros results w0 raw w1 Hs Hw Hr. rewrite begin_run, Hs, Hw, Hr. reflexivity.
Qed.

Lemma rewrite_keeps_identity (fb : str) (ss : Session) (w : World) (st : AgentState) :
  agent_state ss = Some st ->
  exists st',
    agent_state (fst (snd (rewrite fb (ss, w)))) = Some st'
    /\ feedback st' = fb
    /\ topic st' = topic st
    /\ content_type st' = content_type st
    /\ tone st' = tone st
    /\ ui_step (fst (snd (rewrite fb (ss, w)))) = ui_step ss.
Proof.
  intros Hst. rewrite rewrite_eq, Hst, rerun_run. simpl.
  destruct (writer_tool (topic st) (content_type st) (notes st) (tone st) fb w)
    as [[raw|e] w1]; simpl.
  2:{ eexists. split; [reflexivity|]. simpl. conj_close. }
  destruct (reviewer_tool (cleaner_tool raw) w1) as [[rv|e] w2]; simpl;
    eexists; (split; [reflexivity|]); simpl; conj_close.
Qed.

(** X8: whatever its outcome, a rewrite on a session that holds an agent state
    leaves one that records the new feedback and has the topic, content
    type and tone of before, and the UI stays where it was. *)
Theorem rewrite_frame (fb : str) (ss : Session) (w : World) (st : AgentState) :
  agent_state ss = Some st ->
  exists st',
    agent_state (fst (snd (rewrite fb (ss, w)))) = Some st'
    /\ feedback st' = fb
    /\ topic st' = topic st
    /\ content_type st' = content_type st
    /\ tone st' = tone st
    /\ ui_step (fst (snd (rewrite fb (ss, w)))) = ui_step ss.
Proof. exact (rewrite_keeps_identity fb ss w st). Qed.

Lemma not_idle_has_state (ss : Session) :
  reachable ss -> ui_step ss <> Idle -> exists st, agent_state ss = Some st.
Proof.
  intros R. induction R as [|ev ss w R IH]; [intros H; exfalso; apply H; reflexivity|].
  destruct ev as [t c n|fb| |]; unfold handle; simpl.
  - rewrite begin_run.
    destruct (tavily_search t w) as [[results|e] w0]; simpl; [|exact IH].
    destruct (writer_tool t (format_label c) (join [LF] (map content results))
                (tone_label n) [] w0) as [[raw|e] w1]; simpl; [|exact IH].
    destruct (reviewer_tool (cleaner_tool raw) w1) as [[rv|e] w2]; simpl; [|exact IH].
    intros _. eexists. reflexivity.
  - destruct (ui_step ss) eqn:U; simpl; rewrite ?U; try exact IH.
    assert (Gate <> Idle) as G by discriminate.
    destruct (IH G) as [st Hst]. intros _.
    destruct (rewrite_keeps_identity fb ss w st Hst) as [st' [H _]].
    exists st'. exact H.
  - destruct (ui_step ss) eqn:U; simpl; rewrite ?U; try exact IH.
    intros _. apply IH. discriminate.
  - destruct (ui_step ss) eqn:U; simpl; rewrite ?U; try exact IH.
    intros H. exfalso. apply H. reflexivity.
Qed.

(** X9: away from the idle screen there is always an agent state: the gate and
    the download section, which read its keys, find it. *)
Theorem gate_has_state (ss : Session) :
  reachable ss -> ui_step ss <> Idle -> exists st, agent_state ss = Some st.
Proof. exact (not_idle_has_state ss). Qed.

(** X10: at the gate of a reachable session the rewrite button fails only when
    the writer call or, after it, the reviewer call fails, and with that
    call's exception; the reviewer is asked about the sanitized draft. *)
Theorem rewrite_fails_with_collaborator (fb : str) (ss : Session) (w : World)
    (e : exn) (ss' : Session) (w' : World) :
  reachable ss -> ui_step ss = Gate ->
  handle (Rewrite fb) (ss, w) = (Raised e, (ss', w')) ->
  exists st,
    agent_state ss = Some st
    /\ (writer_tool (topic st) (content_type st) (notes st) (tone st) fb w
          = (Raised e, w')
        \/ exists raw w1,
             writer_tool (topic st) (content_type st) (notes st) (tone st) fb w
               = (Returned raw, w1)
             /\ reviewer_tool (cleaner_tool raw) w1 = (Raised e, w')).
Proof.
  intros R U H. unfold handle in H. simpl in H. rewrite U in H.
  destruct (not_idle_has_state ss R) as [st Hst]; [rewrite U; discriminate|].
  exists st. split; [exact Hst|].
  rewrite rewrite_eq, Hst, rerun_run in H. simpl in H.
  destruct (writer_tool (topic st) (content_type st) (notes st) (tone st) fb w)
    as [[raw|e1] w1] eqn:Ew.
  - destruct (reviewer_tool (cleaner_tool raw) w1) as [[rv|e2] w2] eqn:Er;
      [discriminate|].
    injection H as -> _ ->. right. exists raw, w1. split; [reflexivity | exact Er].
  - injection H as -> _ ->. left. reflexivity.
Qed.

End Runs.

Lemma begin_result_witness :
  @tavily_search demo demo_topic 0 = (Returned two_results, 0)
  /\ @begin demo demo_topic BlogPost FormalCorporate (initial_session, 0)
     = (Returned tt, ({| agent_state := Some demo_state; ui_step := Gate |}, 2)).
Proof.
  split; [reflexivity|].
  exact (@begin_result demo demo_topic BlogPost FormalCorporate initial_session 0
           two_results 0 _ 1 _ 2 eq_refl eq_refl eq_refl).
Defined.

Lemma begin_failure_propagates_witness :
  @begin search_down demo_topic BlogPost FormalCorporate (initial_session, 0)
    = (Raised rate_limited, (initial_session, 0))
  /\ @begin demo demo_topic Newsletter CasualEngaging (demo_gate, 4)
     = (Raised rate_limited, (demo_gate, 5))
  /\ @begin demo demo_topic Newsletter CasualEngaging (demo_gate, 3)
     = (Raised rate_limited, (demo_gate, 5)).
Proof.
  split; [|split].
  - exact (proj1 (@begin_failure_propagates search_down demo_topic BlogPost
                    FormalCorporate initial_session 0 rate_limited 0) eq_refl).
  - exact (proj1 (proj2 (@begin_failure_propagates demo demo_topic Newsletter
                           CasualEngaging demo_gate 4 rate_limited 5))
             two_results 4 eq_refl eq_refl).
  - exact (proj2 (proj2 (@begin_failure_propagates demo demo_topic Newsletter
                           CasualEngaging demo_gate 3 rate_limited 5))
             two_results 3 _ 4 eq_refl eq_refl eq_refl).
Defined.

Lemma rewrite_frame_witness :
  agent_state demo_gate = Some demo_state
  /\ exists st',
       agent_state (fst (snd (@rewrite demo (lit "shorter") (demo_gate, 4)))) = Some st'
       /\ feedback st' = lit "shorter"
       /\ topic st' = topic demo_state
       /\ content_type st' = content_type demo_state
       /\ tone st' = tone demo_state
       /\ ui_step (fst (snd (@rewrite demo (lit "shorter") (demo_gate, 4))))
          = ui_step demo_gate.
Proof.
  split; [reflexivity|].
  exact (@rewrite_frame demo (lit "shorter") demo_gate 4 demo_state eq_refl).
Defined.

Lemma demo_finished_reachable : @reachable demo demo_finished.
Proof.
  exact (@reach_step demo Finalize demo_gate 2
           (@reach_step demo (Begin demo_topic BlogPost FormalCorporate)
              initial_session 0 (@reach_init demo))).
Defined.

Lemma gate_has_state_witness :
  @reachable demo demo_finished
  /\ ui_step demo_finished <> Idle
  /\ exists st, agent_state demo_finished = Some st.
Proof.
  assert (ui_step demo_finished <> Idle) as H by (vm_compute; discriminate).
  split; [exact demo_finished_reachable|]. split; [exact H|].
  exact (@gate_has_state demo demo_finished demo_finished_reachable H).
Defined.

Lemma rewrite_fails_with_collaborator_witness :
  @reachable demo demo_gate
  /\ ui_step demo_gate = Gate
  /\ @handle demo (Rewrite (lit "shorter")) (demo_gate, 3)
     = (Raised rate_limited,
        ({| agent_state := Some (with_feedback demo_state (lit "shorter"));
            ui_step := Gate |}, 5))
  /\ exists st,
       agent_state demo_gate = Some st
       /\ (@writer_tool demo (topic st) (content_type st) (notes st) (tone st)
             (lit "shorter") 3 = (Raised rate_limited, 5)
           \/ exists raw w1,
                @writer_tool demo (topic st) (content_type st) (notes st) (tone st)
                  (lit "shorter") 3 = (Returned raw, w1)
                /\ @reviewer_tool demo (cleaner_tool raw) w1
                   = (Raised rate_limited, 5)).
Proof.
  assert (@reachable demo demo_gate) as R
    by exact (@reach_step demo (Begin demo_topic BlogPost FormalCorporate)
                initial_session 0 (@reach_init demo)).
  assert (@handle demo (Rewrite (lit "shorter")) (demo_gate, 3)
          = (Raised rate_limited,
             ({| agent_state := Some (with_feedback demo_state (lit "shorter"));
                 ui_step := Gate |}, 5))) as H by (vm_compute; reflexivity).
  split; [exact R|]. split; [reflexivity|]. split; [exact H|].
  exact (@rewrite_fails_with_collaborator demo (lit "shorter") demo_gate 3
           rate_limited _ 5 R eq_refl H).
Defined.

(** ** Lines of a text *)

Lemma split_on_head (sep : char) (s : str) :
  exists seg segs rest, split_on sep s = seg :: segs /\ s = seg ++ rest.
Proof.
  induction s as [|c s IH]; simpl.
  - exists [], [], []. split; reflexivity.
  - destruct (N.eqb c sep).
    + exists [], (split_on sep s), (c :: s). split; reflexivity.
    + destruct IH as [seg [segs [rest [Hs Hr]]]]. rewrite Hs.
      exists (c :: seg), segs, rest. split; [reflexivity|]. simpl. f_equal. exact Hr.
Qed.

Lemma split_on_piece (sep : char) (s seg : str) :
  In seg (split_on sep s) -> exists a b, s = a ++ seg ++ b.
Proof.
  revert seg. induction s as [|c s IH]; intros seg H; simpl in H.
  - destruct H as [<-|[]]. exists [], []. reflexivity.
  - destruct (N.eqb c sep).
    + destruct H as [<-|H].
      * exists [], (c :: s). reflexivity.
      * destruct (IH seg H) as [a [b Hs]]. exists (c :: a), b. simpl. f_equal. exact Hs.
    + destruct (split_on_head sep s) as [seg0 [segs [rest [Hs Hr]]]].
      rewrite Hs in H, IH. destruct H as [<-|H].
      * exists [], rest. simpl. f_equal. exact Hr.
      * destruct (IH seg (or_intror H)) as [a [b Hab]].
        exists (c :: a), b. simpl. f_equal. exact Hab.
Qed.

Lemma split_on_no_sep (sep : char) (s seg : str) :
  In seg (split_on sep s) -> ~ In sep seg.
Proof.
  revert seg. induction s as [|c s IH]; intros seg H; simpl in H.
  - destruct H as [<-|[]]. intros [].
  - destruct (N.eqb_spec c sep) as [E|E].
    + destruct H as [<-|H]; [intros [] | exact (IH seg H)].
    + destruct (split_on sep s) as [|seg0 segs].
      * destruct H as [<-|[]]. intros [H|[]]. congruence.
      * destruct H as [<-|H].
        -- intros [H|H]; [congruence|]. exact (IH seg0 (or_introl eq_refl) H).
        -- exact (IH seg (or_intror H)).
Qed.

Lemma join_split_on (sep : char) (s : str) : join [sep] (split_on sep s) = s.
Proof.
  induction s as [|c s IH]; simpl; [reflexivity|].
  destruct (N.eqb_spec c sep) as [E|E].
  - destruct (split_on_head sep s) as [seg [segs [rest [Hs _]]]].
    rewrite Hs in *. simpl in *. rewrite IH, E. reflexivity.
  - destruct (split_on_head sep s) as [seg [segs [rest [Hs _]]]].
    rewrite Hs in *. simpl in *. destruct segs as [|seg' segs'].
    + rewrite IH. reflexivity.
    + simpl. f_equal. exact IH.
Qed.

Lemma strip_nil_spaces (s : str) : strip s = [] -> forallb isspace s = true.
Proof.
  unfold strip. intros H.
  destruct (lstrip_split s) as [ws [Hs Hws]].
  destruct (rstrip_split (lstrip s)) as [ws' [Hl Hws']].
  rewrite H in Hl. simpl in Hl. rewrite Hs, Hl, forallb_app, Hws, Hws'. reflexivity.
Qed.

Lemma visible_app (a b : str) : visible (a ++ b) = visible a ++ visible b.
Proof. apply filter_app. Qed.

Lemma visible_spaces (s : str) : forallb isspace s = true -> visible s = [].
Proof.
  induction s as [|c s IH]; simpl; [reflexivity|]. intros H.
  apply andb_true_iff in H. destruct H as [Hc Hs]. rewrite Hc. simpl. apply IH, Hs.
Qed.

Lemma visible_join (segs : list str) :
  visible (join [LF] segs) = visible (concat segs).
Proof.
  induction segs as [|seg segs IH]; [reflexivity|].
  destruct segs as [|seg' segs'].
  - simpl. rewrite app_nil_r. reflexivity.
  - change (join [LF] (seg :: seg' :: segs'))
      with (seg ++ [LF] ++ join [LF] (seg' :: segs')).
    change (concat (seg :: seg' :: segs')) with (seg ++ concat (seg' :: segs')).
    rewrite !visible_app, IH. reflexivity.
Qed.

Lemma visible_nonblank (segs : list str) :
  visible (concat (filter nonblank segs)) = visible (concat segs).
Proof.
  induction segs as [|seg segs IH]; [reflexivity|]. simpl.
  destruct (nonblank seg) eqn:E; simpl; rewrite !visible_app, IH.
  - reflexivity.
  - unfold nonblank in E. destruct (strip seg) eqn:Es; [|discriminate].
    rewrite (visible_spaces seg (strip_nil_spaces seg Es)). reflexivity.
Qed.

(** ** Body paragraphs of the exported story *)

(** X12: every body paragraph of the story that [generate_pdf] gives to
    [doc.build] is one line of the text, whole: it holds no newline, is not
    blank, and is a contiguous piece of the text.  (No story is given when
    reportlab rejects the markup of a paragraph: [ValueError] is raised.) *)
Theorem body_paragraphs_are_lines (str_upper : str -> str)
    (markup_ok : str -> bool) (Pdf : Type)
    (doc_build : list Flowable -> outcome Pdf)
    (text title : str) (urls : list str) :
  exists body,
    generate_pdf str_upper markup_ok doc_build text title urls
    = (if forallb markup_ok (paragraph_texts str_upper text title urls)
       then doc_build
              ([Paragraph (lit "<b>" ++ str_upper title ++ lit "</b>") TitleStyle;
                Spacer 1 12]
               ++ flat_map body_block body
               ++ match urls with
                  | [] => []
                  | _ :: _ => rule_and_heading ++ map source_line urls
                  end)
       else Raised ValueError)
    /\ forall para, In para body ->
         ~ In LF para
         /\ strip para <> []
         /\ exists before after, text = before ++ para ++ after.
Proof.
  exists (filter nonblank (split_on LF text)). split; [apply generate_pdf_run|].
  intros para H. apply filter_In in H. destruct H as [Hin Hnb].
  split; [exact (split_on_no_sep LF text para Hin)|]. split.
  - unfold nonblank in Hnb. destruct (strip para); [discriminate | discriminate].
  - exact (split_on_piece LF text para Hin).
Qed.

(** X13: the story that [generate_pdf] gives to [doc.build] loses no visible
    character: its body paragraphs, read in order, hold the characters of
    the text that are not whitespace, in the same order; only whitespace and
    line breaks are dropped.  (No story is given when reportlab rejects the
    markup of a paragraph: [ValueError] is raised.) *)
Theorem export_keeps_visible_text (str_upper : str -> str)
    (markup_ok : str -> bool) (Pdf : Type)
    (doc_build : list Flowable -> outcome Pdf)
    (text title : str) (urls : list str) :
  exists body,
    generate_pdf str_upper markup_ok doc_build text title urls
    = (if forallb markup_ok (paragraph_texts str_upper text title urls)
       then doc_build
              ([Paragraph (lit "<b>" ++ str_upper title ++ lit "</b>") TitleStyle;
                Spacer 1 12]
               ++ flat_map body_block body
               ++ match urls with
                  | [] => []
                  | _ :: _ => rule_and_heading ++ map source_line urls
                  end)
       else Raised ValueError)
    /\ visible (concat body) = visible text.
Proof.
  exists (filter nonblank (split_on LF text)). split; [apply generate_pdf_run|].
  rewrite visible_nonblank, <- visible_join, join_split_on. reflexivity.
Qed.

(** ** The download section *)

Section DownloadRuns.

Context `{C : Collaborators}.

Variable str_upper : str -> str.

Variable markup_ok : str -> bool.

Variable Pdf : Type.

Variable doc_build : list Flowable -> outcome Pdf.

Lemma stored_draft_from_cleaner (ss : Session) (st : AgentState) :
  reachable ss -> agent_state ss = Some st -> exists raw, draft st = cleaner_tool raw.
Proof.
  intros R. revert st. induction R as [|ev ss w R IH]; intros st Hst; [discriminate|].
  destruct (handle_cases ev ss w)
    as [H|[[st0 [fb [H0 H]]]|[st' [raw [w1 [w2 [H [Hd _]]]]]]]];
    rewrite H in Hst.
  - apply IH, Hst.
  - injection Hst as <-. exact (IH st0 H0).
  - injection Hst as <-. exists raw. exact Hd.
Qed.

(** X11: once a reachable session is finished, the download section finds
    the agent state, calls no collaborator and changes nothing.  It raises
    [ValueError] when reportlab rejects the markup of the title, of a line
    of the stored draft or of a source line; otherwise it gives [doc.build]
    a story with the typed title, the stored urls as sources and body
    paragraphs, taken from the stored draft, that none of the four patterns
    matches, and returns or raises as [doc.build] does. *)
Theorem download_of_finished (topic_in : str) (ss : Session) (w : World) :
  reachable ss -> ui_step ss = Finished ->
  exists st body,
    agent_state ss = Some st
    /\ download_section str_upper markup_ok doc_build topic_in (ss, w)
       = (match
            (if forallb markup_ok
                  (paragraph_texts str_upper (draft st) topic_in (urls st))
             then doc_build
                    ([Paragraph (lit "<b>" ++ str_upper topic_in ++ lit "</b>")
                        TitleStyle; Spacer 1 12]
                     ++ flat_map body_block body
                     ++ match urls st with
                        | [] => []
                        | _ :: _ => rule_and_heading ++ map source_line (urls st)
                        end)
             else Raised ValueError)
          with
          | Returned pdf => Returned (Some pdf)
          | Raised e => Raised e
          end, (ss, w))
    /\ (forall para, In para body ->
          (exists before after, draft st = before ++ para ++ after)
          /\ forall p, In p patterns -> ~ matches p para).
Proof.
  intros R U.
  destruct (not_idle_has_state ss R) as [st Hst]; [rewrite U; discriminate|].
  exists st, (filter nonblank (split_on LF (draft st))).
  split; [exact Hst|]. split.
  - unfold download_section, bind, get_agent_state, pure_step, ret.
    cbn [fst snd]. rewrite U. cbn [fst snd]. rewrite Hst, generate_pdf_run.
    destruct (forallb markup_ok
                (paragraph_texts str_upper (draft st) topic_in (urls st)));
      [|reflexivity].
    destruct (doc_build _); reflexivity.
  - intros para H. apply filter_In in H. destruct H as [Hin _].
    destruct (split_on_piece LF (draft st) para Hin) as [a [b Hab]].
    split; [exists a, b; exact Hab|].
    intros p Hp Hm. apply Hm.
    destruct (stored_draft_from_cleaner ss st R Hst) as [raw Hraw].
    pose proof (cleaner_tool_free raw p Hp) as Hfree.
    rewrite <- Hraw, Hab in Hfree.
    apply free_app_r in Hfree. apply free_app_l in Hfree. exact Hfree.
Qed.

End DownloadRuns.

Example download_demo :
  @download_section demo ascii_upper (tags_nest 0) _ show_story (lit "ai")
    (demo_finished, 2)
  = (Returned
       (Some [Paragraph (lit "<b>AI</b>") TitleStyle; Spacer 1 12;
              Paragraph (lit "Great content here.") BodyText; Spacer 1 6;
              Spacer 1 20; HRFlowable (lit "100%") 1; Spacer 1 12;
              Paragraph (lit "<b>VERIFIED SOURCES:</b>") Heading3;
              Paragraph (source_markup (lit "u1")) BodyText;
              Paragraph (source_markup (lit "u2")) BodyText]),
     (demo_finished, 2)).
Proof. vm_compute. reflexivity. Qed.

Example download_unclosed_tag :
  option_map draft (agent_state demo_bold_finished) = Some (lit "Use <b>bold claims.")
  /\ ui_step demo_bold_finished = Finished
  /\ @download_section demo_bold ascii_upper (tags_nest 0) _ show_story (lit "ai")
       (demo_bold_finished, 2)
     = (Raised ValueError, (demo_bold_finished, 2)).
Proof. vm_compute. repeat split. Qed.

Lemma download_of_finished_witness :
  @reachable demo demo_finished
  /\ ui_step demo_finished = Finished
  /\ exists st body,
       agent_state demo_finished = Some st
       /\ @download_section demo ascii_upper (tags_nest 0) _ show_story (lit "ai")
            (demo_finished, 2)
          = (match
               (if forallb (tags_nest 0)
                     (paragraph_texts ascii_upper (draft st) (lit "ai") (urls st))
                then show_story
                       ([Paragraph (lit "<b>" ++ ascii_upper (lit "ai") ++ lit "</b>")
                           TitleStyle; Spacer 1 12]
                        ++ flat_map body_block body
                        ++ match urls st with
                           | [] => []
                           | _ :: _ => rule_and_heading ++ map source_line (urls st)
                           end)
                else Raised ValueError)
             with
             | Returned pdf => Returned (Some pdf)
             | Raised e => Raised e
             end, (demo_finished, 2))
       /\ (forall para, In para body ->
             (exists before after, draft st = before ++ para ++ after)
             /\ forall p, In p patterns -> ~ matches p para).
Proof.
  split; [exact demo_finished_reachable|]. split; [reflexivity|].
  exact (@download_of_finished demo ascii_upper (tags_nest 0) _ show_story
           (lit "ai") demo_finished 2 demo_finished_reachable eq_refl).
Defined.

(** ** Where the stored fields come from *)

Section Provenance.

Context `{C : Collaborators}.

Lemma stored_fields_origin (ss : Session) (st : AgentState) :
  reachable ss -> agent_state ss = Some st ->
  (exists f, content_type st = format_label f)
  /\ (exists t, tone st = tone_label t)
  /\ (exists w results w',
        tavily_search (topic st) w = (Returned results, w')
        /\ notes st = join [LF] (map content results)
        /\ urls st = map url results).
Proof.
  intros R. revert st. induction R as [|ev ss w R IH]; intros st Hst; [discriminate|].
  destruct ev as [t c n|fb| |]; unfold handle in Hst; simpl in Hst.
  - rewrite begin_run in Hst.
    destruct (tavily_search t w) as [[results|e] w0] eqn:Es; simpl in Hst;
      [|exact (IH st Hst)].
    destruct (writer_tool t (format_label c) (join [LF] (map content results))
                (tone_label n) [] w0) as [[raw|e] w1]; simpl in Hst;
      [|exact (IH st Hst)].
    destruct (reviewer_tool (cleaner_tool raw) w1) as [[rv|e] w2]; simpl in Hst;
      [|exact (IH st Hst)].
    injection Hst as <-. simpl.
    split; [exists c; reflexivity|]. split; [exists n; reflexivity|].
    exists w, results, w0. split; [exact Es|]. split; reflexivity.
  - destruct (ui_step ss) eqn:U; simpl in Hst; try exact (IH st Hst).
    destruct (agent_state ss) as [st0|] eqn:E0.
    + destruct (IH st0 eq_refl) as [Hf [Ht [w0 [results [w0' [Hs [Hn Hu]]]]]]].
      destruct (rewrite_keeps_identity fb ss w st0 E0)
        as [st' [Hst' [_ [Htopic [Hct [Htone _]]]]]].
      rewrite Hst' in Hst. injection Hst as <-.
      pose proof (rewrite_keeps_notes_urls fb ss w) as Hnu.
      unfold notes_urls in Hnu. rewrite Hst', E0 in Hnu. simpl in Hnu.
      injection Hnu as Hn' Hu'.
      rewrite Hct, Htone, Htopic, Hn', Hu'.
      split; [exact Hf|]. split; [exact Ht|].
      exists w0, results, w0'. split; [exact Hs|]. split; [exact Hn | exact Hu].
    + rewrite rewrite_eq, E0 in Hst. simpl in Hst. congruence.
  - destruct (ui_step ss) eqn:U; simpl in Hst; exact (IH st Hst).
  - destruct (ui_step ss) eqn:U; simpl in Hst; exact (IH st Hst).
Qed.

(** X14: in every reachable session the stored content type and tone are labels
    of the two select boxes, whatever was run and whatever failed. *)
Theorem stored_labels_are_choices (ss : Session) (st : AgentState) :
  reachable ss -> agent_state ss = Some st ->
  (exists f, content_type st = format_label f)
  /\ (exists t, tone st = tone_label t).
Proof.
  intros R Hst. destruct (stored_fields_origin ss st R Hst) as [Hf [Ht _]].
  split; [exact Hf | exact Ht].
Qed.

(** X15: in every reachable session the stored notes and urls are those of one
    search response for the stored topic: the contents joined by newlines
    and the urls, one per result in the same order. *)
Theorem stored_research_is_one_response (ss : Session) (st : AgentState) :
  reachable ss -> agent_state ss = Some st ->
  exists w results w',
    tavily_search (topic st) w = (Returned results, w')
    /\ notes st = join [LF] (map content results)
    /\ urls st = map url results
    /\ length (urls st) = length results.
Proof.
  intros R Hst.
  destruct (stored_fields_origin ss st R Hst) as [_ [_ [w [results [w' [Hs [Hn Hu]]]]]]].
  exists w, results, w'. split; [exact Hs|]. split; [exact Hn|]. split; [exact Hu|].
  rewrite Hu. apply length_map.
Qed.

Lemma join_holds_part (sep : str) (parts : list str) (x : str) :
  In x parts -> exists before after, join sep parts = before ++ x ++ after.
Proof.
  induction parts as [|y parts IH]; intros H; [destruct H|].
  destruct parts as [|z parts].
  - destruct H as [<-|[]]. exists [], []. simpl. rewrite app_nil_r. reflexivity.
  - change (join sep (y :: z :: parts)) with (y ++ sep ++ join sep (z :: parts)).
    destruct H as [<-|H].
    + exists [], (sep ++ join sep (z :: parts)). reflexivity.
    + destruct (IH H) as [a [b Hab]]. rewrite Hab.
      exists (y ++ sep ++ a), b. rewrite <- !app_assoc. reflexivity.
Qed.

(** X16: the writer is shown every search result: in a run of [begin] whose
    search returns, the prompt of the writer call holds the content of each
    result, whole. *)
Theorem writer_sees_every_result (t : str) (c : Format) (n : Tone) (ss : Session)
    (w : World) (results : list SearchResult) (w0 : World) (r : SearchResult) :
  tavily_search t w = (Returned results, w0) ->
  In r results ->
  (exists before after,
     writer_prompt t (format_label c) (join [LF] (map content results))
       (tone_label n) []
     = before ++ content r ++ after)
  /\ begin t c n (ss, w)
     = match llm_invoke (writer_prompt t (format_label c)
                           (join [LF] (map content results)) (tone_label n) []) w0 with
       | (Raised e, w1) => (Raised e, (ss, w1))
       | (Returned raw, w1) =>
           match reviewer_tool (cleaner_tool raw) w1 with
           | (Raised e, w2) => (Raised e, (ss, w2))
           | (Returned rv, w2) =>
               (Returned tt,
                ({| agent_state :=
                      Some {| topic := t; content_type := format_label c;
                              tone := tone_label n;
                              notes := join [LF] (map content results);
                              urls := map url results;
                              draft := cleaner_tool raw; review := rv;
                              feedback := [] |};
                    ui_step := Gate |}, w2))
           end
       end.
Proof.
  intros Hs Hr. split.
  - destruct (join_holds_part [LF] (map content results) (content r)
                (in_map content results r Hr)) as [a [b Hab]].
    exists (lit "Draft content. No intro/outro/meta-talk. Just the content: "
            ++ lit "Topic: " ++ t ++ [LF]
            ++ lit "Type: " ++ format_label c ++ [LF]
            ++ lit "Tone: " ++ tone_label n ++ [LF]
            ++ lit "Notes: " ++ a),
           (b ++ [LF] ++ lit "Feedback: " ++ []).
    unfold writer_prompt. rewrite Hab.
    rewrite <- !app_assoc. reflexivity.
  - rewrite begin_run, Hs. reflexivity.
Qed.

End Provenance.

Lemma stored_labels_are_choices_witness :
  @reachable demo demo_finished
  /\ agent_state demo_finished = Some demo_state
  /\ (exists f, content_type demo_state = format_label f)
  /\ (exists t, tone demo_state = tone_label t).
Proof.
  split; [exact demo_finished_reachable|]. split; [reflexivity|].
  exact (@stored_labels_are_choices demo demo_finished demo_state
           demo_finished_reachable eq_refl).
Defined.

Lemma stored_research_is_one_response_witness :
  @reachable demo demo_finished
  /\ agent_state demo_finished = Some demo_state
  /\ exists w results w',
       @tavily_search demo (topic demo_state) w = (Returned results, w')
       /\ notes demo_state = join [LF] (map content results)
       /\ urls demo_state = map url results
       /\ length (urls demo_state) = length results.
Proof.
  split; [exact demo_finished_reachable|]. split; [reflexivity|].
  exact (@stored_research_is_one_response demo demo_finished demo_state
           demo_finished_reachable eq_refl).
Defined.

Lemma writer_sees_every_result_witness :
  @tavily_search demo demo_topic 0 = (Returned two_results, 0)
  /\ In {| content := lit "B"; url := lit "u2" |} two_results
  /\ exists before after,
       writer_prompt demo_topic (format_label BlogPost)
         (join [LF] (map content two_results)) (tone_label FormalCorporate) []
       = before ++ lit "B" ++ after.
Proof.
  assert (In {| content := lit "B"; url := lit "u2" |} two_results) as Hin
    by (right; left; reflexivity).
  split; [reflexivity|]. split; [exact Hin|].
  exact (proj1 (@writer_sees_every_result demo demo_topic BlogPost FormalCorporate
                  initial_session 0 two_results 0 _ eq_refl Hin)).
Defined.
